(** * Avatar and LinkedIn image generators: shadow silhouette engine

    A shallow embedding of the computational parts of
    [scripts/avatar-generator.mjs] (the variant with the shadow silhouette),
    [scripts/config-loader.mjs] and [scripts/linkedin-image-generator.mjs],
    with the properties of the composition engine stated over it.

    Conventions of the embedding:
    - a JavaScript number is [Js.Number]: an exact rational or one of the
      non-finite values; pixel sizes and coordinates that passed the integer
      check are [Z]; products with configured multipliers are taken exactly;
    - a [Buffer] is a list of byte values ([Z] in [0, 256)) read and written
      by index, a store reducing its operand modulo 256;
    - colour names and hex strings are [string]s of 8-bit characters, with
      letter case taken on ASCII; objects used as tables are finite maps
      over their own keys;
    - the image codec ([sharp]), the file system and the console are outside
      the scripts: their calls appear as events of an effect log, their
      results as fields of a [World]. *)

From Stdlib Require Import ZArith QArith Qround Lia Ascii String.
From stdpp Require Import base strings list gmap pretty.

Local Open Scope Z_scope.

(** ** JavaScript numbers and arithmetic *)

Module Js.

Inductive Number :=
| Finite (q : Q)
| NaN
| PosInfinity
| NegInfinity.

Definition ofZ (z : Z) : Number := Finite (inject_Z z).

(** [n <= 0] *)
Definition le_zero (n : Number) : bool :=
  match n with
  | Finite q => Qle_bool q 0
  | NegInfinity => true
  | NaN | PosInfinity => false
  end.

(** [Number.isInteger(n)] *)
Definition isInteger (n : Number) : bool :=
  match n with
  | Finite q => Qeq_bool (inject_Z (Qfloor q)) q
  | _ => false
  end.

(** The integer denoted by a number that passed [isInteger]. *)
Definition toZ (n : Number) : Z :=
  match n with
  | Finite q => Qfloor q
  | _ => 0
  end.

(** Truncation towards zero. *)
Definition trunc (q : Q) : Z :=
  if Qle_bool 0 q then Qfloor q else Qceiling q.

(** The conversion applied by a store into a [Buffer] (ToUint8). *)
Definition toUint8 (n : Number) : Z :=
  match n with
  | Finite q => trunc q mod 256
  | _ => 0
  end.

(** [Math.floor] on an exact rational. *)
Definition floor (x : Q) : Z := Qfloor x.


(** [Math.floor(a / 2)] for an integer [a]. *)
Definition floor_half (a : Z) : Z := Qfloor (inject_Z a / 2).

(** [n * m] for an integer [n] and a configured multiplier [m]. *)
Definition scale (n : Z) (m : Q) : Q := (inject_Z n * m)%Q.

(** [String.prototype.toLowerCase] on ASCII letters. *)
Definition lowerChar (c : ascii) : ascii :=
  let n := Ascii.N_of_ascii c in
  if ((65 <=? n) && (n <=? 90))%N then Ascii.ascii_of_N (n + 32) else c.

Fixpoint toLowerCase (s : string) : string :=
  match s with
  | EmptyString => EmptyString
  | String c rest => String (lowerChar c) (toLowerCase rest)
  end.

(** The value of a character as a digit of [parseInt]. *)
Definition digitValue (c : ascii) : option Z :=
  let n := Z.of_N (Ascii.N_of_ascii c) in
  if (48 <=? n) && (n <=? 57) then Some (n - 48)
  else if (97 <=? n) && (n <=? 122) then Some (n - 87)
  else if (65 <=? n) && (n <=? 90) then Some (n - 55)
  else None.

(** The digits of [s] in [radix], read left to right from accumulator
    [acc] up to the first character that is not a digit. *)
Fixpoint parseDigits (radix : Z) (acc : Z) (s : string) : Z :=
  match s with
  | EmptyString => acc
  | String c rest =>
      match digitValue c with
      | Some d => if d <? radix then parseDigits radix (acc * radix + d) rest
                  else acc
      | None => acc
      end
  end.

(** [parseInt(s, radix)] on a string without leading white space, sign or
    radix prefix: [NaN] when [s] does not start with a digit. *)
Definition parseInt (s : string) (radix : Z) : Number :=
  match s with
  | EmptyString => NaN
  | String c _ =>
      match digitValue c with
      | Some d => if d <? radix then ofZ (parseDigits radix 0 s) else NaN
      | None => NaN
      end
  end.

End Js.

(** ** Colours: [hexToRgb] *)

Record RGB := mkRGB { r : Js.Number; g : Js.Number; b : Js.Number }.

(** [\d] *)
Definition isDigit (c : ascii) : bool :=
  let n := Ascii.N_of_ascii c in ((48 <=? n) && (n <=? 57))%N.

(** [a-f] under the [i] flag *)
Definition isHexLetter (c : ascii) : bool :=
  let n := Ascii.N_of_ascii c in
  (((97 <=? n) && (n <=? 102)) || ((65 <=? n) && (n <=? 70)))%N.

(** The class [[a-f\d]] of the pattern. *)
Definition isHexChar (c : ascii) : bool := isHexLetter c || isDigit c.

(** One group [([a-f\d]{2})] matched at the head of [s]: the captured text
    and the rest of the input. *)
Definition matchHexPair (s : string) : option (string * string) :=
  match s with
  | String c1 (String c2 rest) =>
      if isHexChar c1 && isHexChar c2
      then Some (String c1 (String c2 EmptyString), rest)
      else None
  | _ => None
  end.

(** The three groups followed by the end of the input. *)
Definition matchGroups (s : string) : option (string * string * string) :=
  match matchHexPair s with
  | Some (g1, s1) =>
      match matchHexPair s1 with
      | Some (g2, s2) =>
          match matchHexPair s2 with
          | Some (g3, EmptyString) => Some (g1, g2, g3)
          | _ => None
          end
      | None => None
      end
  | None => None
  end.

(** [/^#?([a-f\d]{2})([a-f\d]{2})([a-f\d]{2})$/i.exec(hex)]: the optional
    [#] is tried first and given back when the rest does not match. *)
Definition hexPatternExec (hex : string) : option (string * string * string) :=
  match hex with
  | String "#"%char rest =>
      match matchGroups rest with
      | Some groups => Some groups
      | None => matchGroups hex
      end
  | _ => matchGroups hex
  end.

Definition hexToRgb (hex : string) : option RGB :=
  match hexPatternExec hex with
  | Some (g1, g2, g3) =>
      Some {| r := Js.parseInt g1 16;
              g := Js.parseInt g2 16;
              b := Js.parseInt g3 16 |}
  | None => None
  end.

(** A channel value as the documentation of [hexToRgb] promises it. *)
Definition isChannel (n : Js.Number) : Prop :=
  exists v : Z, n = Js.ofZ v /\ 0 <= v <= 255.

(** The accepted inputs in words: six hexadecimal digits, optionally
    preceded by one [#]. *)
Definition hexDigit (c : ascii) : bool :=
  existsb (Ascii.eqb c) (list_ascii_of_string "0123456789abcdefABCDEF").

Fixpoint allHex (s : string) : bool :=
  match s with
  | EmptyString => true
  | String c rest => hexDigit c && allHex rest
  end.

Definition sixHexDigits (s : string) : bool :=
  (String.length s =? 6)%nat && allHex s.

Definition isHexColor (s : string) : bool :=
  sixHexDigits s ||
  match s with
  | String "#"%char rest => sixHexDigits rest
  | _ => false
  end.

(** ** Configuration ([config.json], section [avatarGenerator]) *)

(** Modelled from the spec: [config.json] is not among the sources.  A band
    of the offset rule has an inclusive maximum size, an offset multiplier
    (a fraction of the canvas size) and a minimum absolute offset. *)
Record Band := mkBand {
  maxSize : Z;
  offsetMultiplier : Q;
  minOffset : Z
}.

Record ShadowOffsetConfig := mkShadowOffsetConfig {
  small : Band;
  medium : Band;
  large : Band
}.

(** Modelled from the spec: the part of [config.json] read by the avatar
    generator: the table from a background colour name to its ordered
    candidate shadow colour names, the offset bands and the multiplier of
    the silhouette size. *)
Record AvatarConfig := mkAvatarConfig {
  shadowColorMap : gmap string (list string);
  shadowOffset : ShadowOffsetConfig;
  shadowSizeMultiplier : Q
}.

(** ** [getShadowColor] *)

Definition getShadowColor (colorMap : gmap string (list string))
    (backgroundColor : string) : string :=
  let colorKey := Js.toLowerCase backgroundColor in
  match colorMap !! colorKey with
  | None => "navy"                       (* [!options] *)
  | Some [] => "navy"                    (* [options.length === 0] *)
  | Some (first :: _) => first           (* [options[0]] *)
  end.

Inductive SelectionError := NoShadowColorAvailable.

(** The selection in the words of the specification: the first candidate,
    or a failure when the entry is missing or empty. *)
Definition spec_selectShadowColor (colorMap : gmap string (list string))
    (backgroundColor : string) : SelectionError + string :=
  match colorMap !! Js.toLowerCase backgroundColor with
  | Some (first :: _) => inr first
  | _ => inl NoShadowColorAvailable
  end.

(** ** [calculateShadowOffset] *)

Inductive BandName := Small | Medium | Large.

Definition band_of (cfg : ShadowOffsetConfig) (b : BandName) : Band :=
  match b with
  | Small => small cfg
  | Medium => medium cfg
  | Large => large cfg
  end.

(** The branch of the if/else ladder taken for [size]. *)
Definition selectBand (cfg : ShadowOffsetConfig) (size : Z) : BandName :=
  if size <=? maxSize (small cfg) then Small
  else if size <=? maxSize (medium cfg) then Medium
  else Large.

(** The value of the local variable [offset]. *)
Definition shadowOffsetMagnitude (cfg : ShadowOffsetConfig) (size : Z) : Z :=
  if size <=? maxSize (small cfg) then
    Z.max (minOffset (small cfg))
          (Js.floor (Js.scale size (offsetMultiplier (small cfg))))
  else if size <=? maxSize (medium cfg) then
    Z.max (minOffset (medium cfg))
          (Js.floor (Js.scale size (offsetMultiplier (medium cfg))))
  else
    Z.max (minOffset (large cfg))
          (Js.floor (Js.scale size (offsetMultiplier (large cfg)))).

Record Offset := mkOffset { off_x : Z; off_y : Z }.

Definition calculateShadowOffset (cfg : ShadowOffsetConfig) (size : Z) : Offset :=
  let offset := shadowOffsetMagnitude cfg size in
  {| off_x := - offset; off_y := - offset |}.


(** ** Rasters and the silhouette recolouring loop *)

(** A raw RGBA raster: [data] holds [width * height * 4] bytes, row-major. *)
Record Raster := mkRaster { width : Z; height : Z; data : list Z }.

Definition isByte (v : Z) : Prop := 0 <= v < 256.

Definition wellFormedRaster (img : Raster) : Prop :=
  0 <= width img /\ 0 <= height img /\
  length (data img) = Z.to_nat (width img * height img * 4) /\
  Forall isByte (data img).

(** [buf[i]] as the operand of a later store: a read past the end yields
    [undefined], which a store converts like [NaN]. *)
Definition load (buf : list Z) (i : nat) : Js.Number :=
  match buf !! i with
  | Some v => Js.ofZ v
  | None => Js.NaN
  end.

(** [buf[i] = v]: a store past the end is ignored. *)
Definition store (buf : list Z) (i : nat) (v : Js.Number) : list Z :=
  <[i := Js.toUint8 v]> buf.

(** The body of the loop for pixel [i]. *)
Definition recolorPixel (shadowRgb : RGB) (portraitData : list Z)
    (shadowBuffer : list Z) (i : nat) : list Z :=
  let alpha := load portraitData (i * 4 + 3) in
  let buf0 := store shadowBuffer (i * 4 + 0) (r shadowRgb) in
  let buf1 := store buf0 (i * 4 + 1) (g shadowRgb) in
  let buf2 := store buf1 (i * 4 + 2) (b shadowRgb) in
  store buf2 (i * 4 + 3) alpha.

(** [for (let i = 0; i < shadowSize * shadowSize; i++) ...] run on the
    freshly allocated [shadowBuffer]. *)
Definition recolorLoop (shadowRgb : RGB) (shadowSize : Z)
    (portraitData shadowBuffer : list Z) : list Z :=
  foldl (recolorPixel shadowRgb portraitData) shadowBuffer
        (seq 0 (Z.to_nat (shadowSize * shadowSize))).

(** Steps 2 and 3 of the silhouette: [alloc] is the content of the buffer
    returned by [Buffer.allocUnsafe], which is not initialised. *)
Definition createSilhouette (shadowRgb : RGB) (shadowSize : Z)
    (portraitData alloc : list Z) : Raster :=
  {| width := shadowSize;
     height := shadowSize;
     data := recolorLoop shadowRgb shadowSize portraitData alloc |}.

(** Pixel [i], channel [c] of a buffer. *)
Definition channel (buf : list Z) (i : nat) (c : nat) : option Z :=
  buf !! (i * 4 + c)%nat.

(** ** Placement and clipping of the silhouette *)

(** [Math.max(1, Math.floor(targetSize * multiplier))] *)
Definition shadowSizeOf (multiplier : Q) (targetSize : Z) : Z :=
  let desiredShadowSize := Js.floor (Js.scale targetSize multiplier) in
  Z.max 1 desiredShadowSize.

Record CropPlan := mkCropPlan {
  cropLeft : Z;
  cropTop : Z;
  cropRight : Z;
  cropBottom : Z;
  cropWidth : Z;
  cropHeight : Z
}.

(** Step 5: the part of the silhouette inside the canvas. *)
Definition cropToCanvas (size shadowSize shadowX shadowY : Z) : CropPlan :=
  let cropLeft := Z.max 0 (- shadowX) in
  let cropTop := Z.max 0 (- shadowY) in
  let cropRight := Z.min shadowSize (size - shadowX) in
  let cropBottom := Z.min shadowSize (size - shadowY) in
  {| cropLeft := cropLeft;
     cropTop := cropTop;
     cropRight := cropRight;
     cropBottom := cropBottom;
     cropWidth := cropRight - cropLeft;
     cropHeight := cropBottom - cropTop |}.

(** The test guarding the call of [extract]. *)
Definition needsExtract (shadowSize : Z) (c : CropPlan) : bool :=
  (0 <? cropLeft c) || (0 <? cropTop c) ||
  (cropWidth c <? shadowSize) || (cropHeight c <? shadowSize).

Record ShadowPlacement := mkShadowPlacement {
  shadowX : Z;
  shadowY : Z;
  crop : CropPlan;
  finalShadowX : Z;
  finalShadowY : Z
}.

(** Steps 4 to 6: centre, shift by the offset, clip, clamp the position. *)
Definition placeShadow (size shadowSize : Z) (offset : Offset) : ShadowPlacement :=
  let centerX := Js.floor_half (size - shadowSize) in
  let centerY := Js.floor_half (size - shadowSize) in
  let shadowX := centerX + off_x offset in
  let shadowY := centerY + off_y offset in
  {| shadowX := shadowX;
     shadowY := shadowY;
     crop := cropToCanvas size shadowSize shadowX shadowY;
     finalShadowX := Z.max 0 shadowX;
     finalShadowY := Z.max 0 shadowY |}.

(** The placement of the silhouette for a canvas of [size] pixels. *)
Definition planShadow (cfg : AvatarConfig) (size : Z) : ShadowPlacement :=
  let offset := calculateShadowOffset (shadowOffset cfg) size in
  let shadowSize := shadowSizeOf (shadowSizeMultiplier cfg) size in
  placeShadow size shadowSize offset.

(** ** Effects: an event log with exceptions *)

Definition Eff (E X A : Type) : Type := list E -> (X + A) * list E.

Definition eff_ret {E X A} (a : A) : Eff E X A := fun log => (inr a, log).

Definition eff_bind {E X A B} (m : Eff E X A) (k : A -> Eff E X B) : Eff E X B :=
  fun log =>
    match m log with
    | (inl x, log') => (inl x, log')
    | (inr a, log') => k a log'
    end.

Definition emit {E X} (e : E) : Eff E X unit := fun log => (inr tt, log ++ [e]).

Definition throw {E X A} (x : X) : Eff E X A := fun log => (inl x, log).

(** [try { body } catch (err) { handler }] *)
Definition tryCatch {E X A} (body : Eff E X A) (handler : X -> Eff E X A)
    : Eff E X A :=
  fun log =>
    match body log with
    | (inl x, log') => handler x log'
    | (inr a, log') => (inr a, log')
    end.

Definition when {E X} (c : bool) (m : Eff E X unit) : Eff E X unit :=
  if c then m else eff_ret tt.

Definition run {E X A} (m : Eff E X A) : (X + A) * list E := m [].

Declare Scope eff_scope.
Delimit Scope eff_scope with eff.
Notation "x <- m ;; k" := (eff_bind m (fun x => k))
  (at level 100, m at next level, right associativity) : eff_scope.
Notation "m ;; k" := (eff_bind m (fun _ => k))
  (at level 100, right associativity) : eff_scope.

Local Open Scope eff_scope.

(** ** [generateAvatar] *)

Inductive AvatarError :=
| PortraitNotFound (portraitPath : string)
| InvalidColor (colorName : string)
| InvalidSize (size : Js.Number)
| InvalidColorHex (colorHex : string)
| ShadowColorParseFailure (shadowColorHex : option string)
| InvalidShadowSize (shadowSize : Z).

Inductive LayerInput := CroppedShadow | ShadowSilhouette | ResizedPortrait.

Record Layer := mkLayer { input : LayerInput; left : Z; top : Z }.

(** The calls that leave the script, in the order they are made. *)
Inductive AvatarEvent :=
| MkDir (dir : string)
| LogInfo
| LogError (err : AvatarError)
| LogSuccess
| ReadMetadata (path : string)
| ResizePortrait (targetSize : Z) (grayscale : bool)
| CreateCanvas (w h : Z) (background : RGB) (alpha : Z)
| DecodeRaw (path : string) (shadowSize : Z)
| EncodeRaw (img : Raster)
| ExtractRegion (left top width height : Z)
| Composite (layers : list Layer)
| WriteFile (outputPath : string).

(** What the script reads from its environment. *)
Record World := mkWorld {
  existsSync : string -> bool;
  dirname : string -> string;
  (** the result of [loadBrandColors()] *)
  brandColors : gmap string string;
  (** [AVATAR_CONFIG] *)
  config : AvatarConfig;
  (** the raw RGBA data of the portrait resized (cover) to [n] by [n] *)
  rawPortrait : string -> Z -> list Z;
  (** the content of [Buffer.allocUnsafe(n)] *)
  allocUnsafe : Z -> list Z
}.

Definition AvatarM := Eff AvatarEvent AvatarError.

Definition transparent : RGB :=
  {| r := Js.ofZ 0; g := Js.ofZ 0; b := Js.ofZ 0 |}.

(** The block guarded by [if (withShadow)]. *)
Definition addShadowSilhouette (w : World) (portraitPath colorName : string)
    (colors : gmap string string) (size targetSize : Z) : AvatarM (list Layer) :=
  tryCatch
    (let shadowColorName := getShadowColor (shadowColorMap (config w)) colorName in
     let shadowColorHex := colors !! shadowColorName in
     match hexToRgb (default "undefined" shadowColorHex) with
     | None => throw (ShadowColorParseFailure shadowColorHex)
     | Some shadowRgb =>
         let offset := calculateShadowOffset (shadowOffset (config w)) size in
         let shadowSize := shadowSizeOf (shadowSizeMultiplier (config w)) targetSize in
         if shadowSize <=? 0 then throw (InvalidShadowSize shadowSize)
         else
           emit (DecodeRaw portraitPath shadowSize) ;;
           let portraitData := rawPortrait w portraitPath shadowSize in
           let shadowBuffer := allocUnsafe w (shadowSize * shadowSize * 4) in
           let silhouette :=
             createSilhouette shadowRgb shadowSize portraitData shadowBuffer in
           emit (EncodeRaw silhouette) ;;
           let p := placeShadow size shadowSize offset in
           when (needsExtract shadowSize (crop p))
                (emit (ExtractRegion (cropLeft (crop p)) (cropTop (crop p))
                                     (cropWidth (crop p)) (cropHeight (crop p)))) ;;
           emit (CreateCanvas size size transparent 0) ;;
           emit (Composite [mkLayer CroppedShadow (finalShadowX p) (finalShadowY p)]) ;;
           eff_ret [mkLayer ShadowSilhouette 0 0]
     end)
    (fun err => emit (LogError err) ;; throw err).

Definition generateAvatar (w : World) (portraitPath colorName : string)
    (size : Js.Number) (outputPath : string) (grayscale withShadow : bool)
    : AvatarM unit :=
  tryCatch
    (when (negb (existsSync w portraitPath))
          (throw (PortraitNotFound portraitPath)) ;;
     let colors := brandColors w in
     match colors !! Js.toLowerCase colorName with
     | None => throw (InvalidColor colorName)
     | Some EmptyString => throw (InvalidColor colorName)
     | Some colorHex =>
         when (Js.le_zero size || negb (Js.isInteger size))
              (throw (InvalidSize size)) ;;
         let size := Js.toZ size in
         let outputDir := dirname w outputPath in
         when (negb (existsSync w outputDir)) (emit (MkDir outputDir)) ;;
         emit LogInfo ;;
         emit (ReadMetadata portraitPath) ;;
         let targetSize := size in
         emit (ResizePortrait targetSize grayscale) ;;
         match hexToRgb colorHex with
         | None => throw (InvalidColorHex colorHex)
         | Some rgb =>
             emit (CreateCanvas size size rgb 1) ;;
             shadowLayers <-
               (if withShadow
                then addShadowSilhouette w portraitPath colorName colors size targetSize
                else eff_ret []) ;;
             let portraitX := Js.floor_half (size - targetSize) in
             let portraitY := Js.floor_half (size - targetSize) in
             let compositeLayers :=
               shadowLayers ++ [mkLayer ResizedPortrait portraitX portraitY] in
             emit (Composite compositeLayers) ;;
             emit (WriteFile outputPath) ;;
             emit LogSuccess
         end
     end)
    (fun err => emit (LogError err) ;; throw err).

Definition isCreateCanvas (e : AvatarEvent) : bool :=
  match e with
  | CreateCanvas _ _ _ _ => true
  | _ => false
  end.

(** ** [generateLinkedInImage]: encoding within the size limit *)

Inductive EncodeOptions :=
| JpegOptions (quality : Z) (mozjpeg : bool)
| PngOptions (compressionLevel : Z) (effort : option Z).

Inductive Warning :=
| ExceedsLimit (bytes : nat)
| StillExceedsLimit (bytes : nat).

Inductive LinkedInError := CodecFailure (opts : EncodeOptions).

Inductive LinkedInEvent :=
| Encode (opts : EncodeOptions)
| Warn (w : Warning)
| LogFailure (err : LinkedInError)
| WriteOutput (outputPath : string) (outputBuffer : list Z)
| LogDone.

Definition LinkedInM := Eff LinkedInEvent LinkedInError.

(** [buffer.length / (1024 * 1024)] *)
Definition fileSizeMB (buffer : list Z) : Q :=
  (inject_Z (Z.of_nat (length buffer)) / inject_Z (1024 * 1024))%Q.

(** [fileSizeMB > 3] *)
Definition exceedsLimit (buffer : list Z) : bool :=
  negb (Qle_bool (fileSizeMB buffer) 3).

(** The byte budget of the specification: 3 MB. *)
Definition byteBudget : Z := 3 * 1024 * 1024.

Definition firstOptions (outputFormat : string) : EncodeOptions :=
  if String.eqb outputFormat "jpeg"
  then JpegOptions 90 true
  else PngOptions 9 None.

Definition retryOptions (outputFormat : string) : EncodeOptions :=
  if String.eqb outputFormat "jpeg"
  then JpegOptions 75 true
  else PngOptions 9 (Some 10).

(** One run of the codec on the composited image with the given options;
    [toBuffer] is the codec, which may fail. *)
Definition encode (toBuffer : EncodeOptions -> option (list Z))
    (opts : EncodeOptions) : LinkedInM (list Z) :=
  emit (Encode opts) ;;
  match toBuffer opts with
  | Some buffer => eff_ret buffer
  | None => throw (CodecFailure opts)
  end.

(** The part of [generateLinkedInImage] from "Apply format-specific
    processing" to the end, inside the [try] block of the function. *)
Definition encodeAndWrite (toBuffer : EncodeOptions -> option (list Z))
    (outputFormat outputPath : string) : LinkedInM unit :=
  tryCatch
    (outputBuffer <- encode toBuffer (firstOptions outputFormat) ;;
     outputBuffer <-
       (if exceedsLimit outputBuffer then
          emit (Warn (ExceedsLimit (length outputBuffer))) ;;
          recompressed <- encode toBuffer (retryOptions outputFormat) ;;
          when (exceedsLimit recompressed)
               (emit (Warn (StillExceedsLimit (length recompressed)))) ;;
          eff_ret recompressed
        else eff_ret outputBuffer) ;;
     emit (WriteOutput outputPath outputBuffer) ;;
     emit LogDone)
    (fun err => emit (LogFailure err) ;; throw err).

(** The effort of the PNG encoder when the options leave it out (the
    documented default of the codec), and its maximum. *)
Definition pngDefaultEffort : Z := 7.
Definition pngMaxCompressionLevel : Z := 9.

Definition effortOf (effort : option Z) : Z := default pngDefaultEffort effort.

(** [second] trades quality or time for size, compared with [first]. *)
Definition stricter (first second : EncodeOptions) : Prop :=
  match first, second with
  | JpegOptions q1 _, JpegOptions q2 _ => q2 < q1
  | PngOptions l1 e1, PngOptions l2 e2 =>
      l1 <= l2 /\ l2 = pngMaxCompressionLevel /\ effortOf e1 < effortOf e2
  | _, _ => False
  end.

Definition encodeCalls (log : list LinkedInEvent) : list EncodeOptions :=
  omap (fun e => match e with Encode opts => Some opts | _ => None end) log.

Definition warnings (log : list LinkedInEvent) : list Warning :=
  omap (fun e => match e with Warn w => Some w | _ => None end) log.

Definition written (log : list LinkedInEvent) : list (list Z) :=
  omap (fun e => match e with WriteOutput _ buf => Some buf | _ => None end) log.

(** ** Reasoning about effects *)

(** [m] never ends with an exception satisfying [bad], whatever the log it
    starts from. *)
Definition neverThrows {E X A} (bad : X -> bool) (m : Eff E X A) : Prop :=
  forall log,
    match fst (m log) with
    | inl x => bad x = false
    | inr _ => True
    end.

Definition isInvalidSize (e : AvatarError) : bool :=
  match e with
  | InvalidSize _ => true
  | _ => false
  end.

(** ** Example inputs *)

Definition example_offsets : ShadowOffsetConfig :=
  {| small := mkBand 256 (1 # 20) 8;
     medium := mkBand 512 (1 # 25) 12;
     large := mkBand 4096 (3 # 100) 20 |}.

Definition example_colorMap : gmap string (list string) :=
  {[ "aqua" := ["navy"; "fuchsia"];
     "navy" := ["fuchsia"; "aqua"];
     "fuchsia" := ["aqua"; "navy"] ]}.

Definition example_config : AvatarConfig :=
  {| shadowColorMap := example_colorMap;
     shadowOffset := example_offsets;
     shadowSizeMultiplier := 6 # 5 |}.

Definition example_world : World :=
  {| existsSync := fun _ => true;
     dirname := fun path => path;
     brandColors := {[ "aqua" := "#00FFDC"; "navy" := "#1E2A45";
                       "fuchsia" := "#FF008F" ]};
     config := example_config;
     rawPortrait := fun _ n => repeat 200 (Z.to_nat (n * n * 4));
     allocUnsafe := fun n => repeat 7 (Z.to_nat n) |}.

(** A codec whose every output has four million bytes. *)
Definition example_oversized : list Z := replicate (Z.to_nat 4000000) 0.

Definition example_codec (opts : EncodeOptions) : option (list Z) :=
  Some example_oversized.

(** A 2 by 2 portrait with four different alpha values. *)
Definition example_portrait : list Z :=
  [10; 11; 12; 0;  20; 21; 22; 128;  30; 31; 32; 255;  40; 41; 42; 77].

(** ** Further definitions for the properties of the code *)

(** The operand of the store into byte [j] of the silhouette buffer. *)
Definition storedAt (shadowRgb : RGB) (portraitData : list Z) (j : nat)
    : Js.Number :=
  match (j mod 4)%nat with
  | 0%nat => r shadowRgb
  | 1%nat => g shadowRgb
  | 2%nat => b shadowRgb
  | _ => load portraitData j
  end.

Definition isInvalidShadowSize (e : AvatarError) : bool :=
  match e with
  | InvalidShadowSize _ => true
  | _ => false
  end.

(** ** [hexToRgbNormalized] ([scripts/config-loader.mjs]) *)

(** [n / 255] *)
Definition divideBy255 (n : Js.Number) : Js.Number :=
  match n with
  | Js.Finite q => Js.Finite (q / 255)
  | other => other
  end.

Definition hexToRgbNormalized (hex : string) : option RGB :=
  match hexToRgb hex with
  | None => None                                   (* [if (!rgb) return null] *)
  | Some rgb =>
      Some {| r := divideBy255 (r rgb);
              g := divideBy255 (g rgb);
              b := divideBy255 (b rgb) |}
  end.

(** A channel of the normalised colour: the quotient by 255 of an integer
    of [0, 255], hence a number of [0, 1]. *)
Definition isUnitChannel (n : Js.Number) : Prop :=
  exists v : Z, 0 <= v <= 255 /\ n = Js.Finite (inject_Z v / 255) /\
                (0 <= inject_Z v / 255)%Q /\ (inject_Z v / 255 <= 1)%Q.

(** The digits of a colour string: the string without its optional [#]. *)
Definition hexBody (hex : string) : string :=
  match hex with
  | String "#"%char rest => rest
  | _ => hex
  end.

(** The lower-case hexadecimal digit of value [d]. *)
Definition hexLowerOf (d : Z) : ascii :=
  nth (Z.to_nat d) (list_ascii_of_string "0123456789abcdef") "0"%char.

Definition lowerGroups (groups : string * string * string)
    : string * string * string :=
  let '(g1, g2, g3) := groups in
  (Js.toLowerCase g1, Js.toLowerCase g2, Js.toLowerCase g3).

(** ** Classification of the events of [generateAvatar] *)



Definition isComposite (e : AvatarEvent) : bool :=
  match e with
  | Composite _ => true
  | _ => false
  end.

(** ** Specifications of effectful code *)

(** Started from any log, [m] appends some events [new] to it and ends
    with a result [res] such that [post res new]. *)
Definition logs {E X A} (m : Eff E X A) (post : X + A -> list E -> Prop) : Prop :=
  forall log, exists res new, m log = (res, log ++ new) /\ post res new.

(** ** Property names inherited from [Object.prototype] *)

(** The names every object literal inherits: a lookup [object[name]] of
    such a name that is not an own key finds the inherited property and
    not [undefined].  The tables of [World] hold own keys only, so a
    statement about a lookup that misses is made for the other names. *)
Definition objectPrototypeKeys : list string :=
  ["constructor"; "__proto__"; "hasOwnProperty"; "isPrototypeOf";
   "propertyIsEnumerable"; "toLocaleString"; "toString"; "valueOf";
   "__defineGetter__"; "__defineSetter__"; "__lookupGetter__";
   "__lookupSetter__"].

Definition inheritedKey (name : string) : bool :=
  existsb (String.eqb name) objectPrototypeKeys.

(** The events of [generateAvatar] between the validation of the size and
    the parsing of the background colour. *)
Definition preparation (w : World) (portraitPath outputPath : string)
    (size : Z) (grayscale : bool) : list AvatarEvent :=
  (if existsSync w (dirname w outputPath) then []
   else [MkDir (dirname w outputPath)])
  ++ [LogInfo; ReadMetadata portraitPath; ResizePortrait size grayscale].

(** A small world for runs with the silhouette. *)
Definition example_small_world : World :=
  {| existsSync := fun path => negb (String.eqb path "out");
     dirname := fun _ => "out";
     brandColors := {[ "aqua" := "#00FFDC"; "navy" := "#1E2A45";
                       "fuchsia" := "FF008F"; "broken" := "#12345" ]};
     config := {| shadowColorMap := {[ "aqua" := ["navy"];
                                       "navy" := ["white"] ]};
                  shadowOffset := example_offsets;
                  shadowSizeMultiplier := 6 # 5 |};
     rawPortrait := fun _ n => replicate (Z.to_nat (n * n * 4)) 200;
     allocUnsafe := fun n => replicate (Z.to_nat n) 7 |}.

(** ** [generateLinkedInImage]: dimensions, format and logo placement *)

Record Dimensions := mkDimensions { dim_width : Z; dim_height : Z }.

Record LinkedInSpec := mkLinkedInSpec {
  spec_min : Dimensions;
  spec_recommended : Dimensions
}.

Definition LINKEDIN_SPECS : gmap string LinkedInSpec :=
  {[ "logo" := mkLinkedInSpec (mkDimensions 268 268) (mkDimensions 400 400);
     "title" := mkLinkedInSpec (mkDimensions 4200 700) (mkDimensions 4200 700);
     "culture-main" :=
       mkLinkedInSpec (mkDimensions 1128 376) (mkDimensions 1128 376);
     "culture-module" :=
       mkLinkedInSpec (mkDimensions 502 282) (mkDimensions 502 282);
     "photo" := mkLinkedInSpec (mkDimensions 264 176) (mkDimensions 900 600);
     "post" := mkLinkedInSpec (mkDimensions 200 105) (mkDimensions 1200 627) ]}.

Inductive LinkedInInputError :=
| InvalidType (type : string)
| DimensionsOfUndefined        (* the TypeError of [dimensions.width] *)
| InvalidLinkedInColor (color : string).

(** A truthy [colors[name]]: the hex string of an own key, or the
    property that every object inherits under [name]. *)
Inductive ColorProperty :=
| OwnColor (hex : string)
| InheritedProperty (name : string).

Record LinkedInPlan := mkLinkedInPlan {
  plan_width : Z;
  plan_height : Z;
  plan_colorHex : ColorProperty;
  plan_outputFormat : string
}.

(** The start of [generateLinkedInImage], up to the choice of the output
    format; [colors] is the result of [loadBrandColors()], [format] is
    [None] for [null].  [LINKEDIN_SPECS[type]] and [colors[...]] find the
    inherited property for a name of [objectPrototypeKeys]: it is truthy,
    and as a specification it has neither [recommended] nor [min]. *)
Definition planLinkedInImage (colors : gmap string string)
    (type color : string) (format : option string) (useRecommended : bool)
    : LinkedInInputError + LinkedInPlan :=
  match LINKEDIN_SPECS !! type with
  | None =>
      if inheritedKey type then inl DimensionsOfUndefined
      else inl (InvalidType type)
  | Some spec =>
      let dimensions :=
        if useRecommended then spec_recommended spec else spec_min spec in
      let width := dim_width dimensions in
      let height := dim_height dimensions in
      let colorKey := Js.toLowerCase color in
      let colorHex :=
        match colors !! colorKey with
        | Some hex => Some (OwnColor hex)
        | None =>
            if inheritedKey colorKey then Some (InheritedProperty colorKey)
            else None
        end in
      match colorHex with
      | None => inl (InvalidLinkedInColor color)
      | Some (OwnColor EmptyString) => inl (InvalidLinkedInColor color)
      | Some colorHex =>
          let outputFormat :=
            match format with
            | None => if String.eqb type "logo" then "png" else "jpeg"
            | Some EmptyString => if String.eqb type "logo" then "png" else "jpeg"
            | Some given => given
            end in
          inr {| plan_width := width; plan_height := height;
                 plan_colorHex := colorHex; plan_outputFormat := outputFormat |}
      end
  end.

(** "Calculate logo size based on image type" *)
Definition logoSizeFor (type : string) (width height : Z) : Z :=
  if String.eqb type "logo" then
    Js.floor (Js.scale (Z.min width height) (8 # 10))
  else if String.eqb type "title" then
    Js.floor (Js.scale height (4 # 10))
  else
    Js.floor (Js.scale (Z.min width height) (3 # 10)).

(** "Position logo": the pair ([logoX], [logoY]). *)
Definition logoPositionFor (type : string) (width height logoSize : Z) : Z * Z :=
  if String.eqb type "logo" then
    (Js.floor_half (width - logoSize), Js.floor_half (height - logoSize))
  else if String.eqb type "title" then
    (Js.floor (Js.scale width (5 # 100)), Js.floor_half (height - logoSize))
  else
    (Js.floor (Js.scale width (5 # 100)), Js.floor (Js.scale height (5 # 100))).

Definition isWriteOutput (e : LinkedInEvent) : bool :=
  match e with
  | WriteOutput _ _ => true
  | _ => false
  end.

(** A codec that fails for the options of the second attempt. *)
Definition example_failing_codec (opts : EncodeOptions) : option (list Z) :=
  match opts with
  | JpegOptions 90 _ => Some example_oversized
  | _ => None
  end.

(** ** Command line and prompts of the avatar generator *)

(** The white space skipped by [parseInt], among 8-bit characters: TAB,
    LF, VT, FF, CR, space and the no-break space. *)
Definition isWhiteSpace (c : ascii) : bool :=
  let n := Ascii.N_of_ascii c in
  ((9 <=? n) && (n <=? 13) || (n =? 32) || (n =? 160))%N.

Fixpoint trimStart (s : string) : string :=
  match s with
  | EmptyString => EmptyString
  | String c rest => if isWhiteSpace c then trimStart rest else s
  end.

(** [parseInt(input, 10)]: leading white space, an optional sign, then the
    longest run of decimal digits; [NaN] when there is no digit. *)
Definition parseIntDecimal (input : string) : Js.Number :=
  let trimmed := trimStart input in
  let sign :=
    match trimmed with
    | String "-"%char _ => -1
    | _ => 1
    end in
  let digits :=
    match trimmed with
    | String "-"%char rest => rest
    | String "+"%char rest => rest
    | _ => trimmed
    end in
  match digits with
  | EmptyString => Js.NaN
  | String c _ =>
      match Js.digitValue c with
      | Some d => if d <? 10 then Js.ofZ (sign * Js.parseDigits 10 0 digits)
                  else Js.NaN
      | None => Js.NaN
      end
  end.

(** [isNaN(n)] *)
Definition isNaN (n : Js.Number) : bool :=
  match n with
  | Js.NaN => true
  | _ => false
  end.

(** [n < z] and [n > z] for an integer [z]. *)
Definition numberLt (n : Js.Number) (z : Z) : bool :=
  match n with
  | Js.Finite q => negb (Qle_bool (inject_Z z) q)
  | Js.NegInfinity => true
  | Js.NaN | Js.PosInfinity => false
  end.

Definition numberGt (n : Js.Number) (z : Z) : bool :=
  match n with
  | Js.Finite q => negb (Qle_bool q (inject_Z z))
  | Js.PosInfinity => true
  | Js.NaN | Js.NegInfinity => false
  end.

Inductive SizeAnswer :=
| SizeAccepted                (* [true] *)
| NotPositive                 (* "Bitte eine positive Zahl eingeben" *)
| OutOfRange.                 (* "Größe muss zwischen ... liegen" *)

(** The [validate] function of the custom size prompt of
    [promptAvatarSize]; [minSize] and [maxSize] are
    [AVATAR_CONFIG.sizeLimits.min] and [.max], values of [config.json]. *)
Definition validateCustomSize (minSize maxSize : Z) (input : string)
    : SizeAnswer :=
  let num := parseIntDecimal input in
  if isNaN num || Js.le_zero num then NotPositive
  else if numberLt num minSize || numberGt num maxSize then OutOfRange
  else SizeAccepted.

(** The object built by [parseArgs]; [None] is [null]. *)
Record AvatarArgs := mkAvatarArgs {
  arg_portrait : option string;
  arg_color : option string;
  arg_size : Js.Number;
  arg_output : option string;
  arg_grayscale : bool;
  arg_withShadow : bool
}.

Inductive ParsedArgs :=
| HelpRequested                       (* [{ help: true }] *)
| Parsed (parsed : AvatarArgs).

Definition isGrayscaleFlag (arg : string) : bool :=
  String.eqb arg "--grayscale" || String.eqb arg "--grey" ||
  String.eqb arg "--gray".

Definition isHelpFlag (arg : string) : bool :=
  String.eqb arg "--help" || String.eqb arg "-h".

(** The loop of [parseArgs] from the argument at the head of [args]. *)
Fixpoint parseArgsFrom (args : list string) (parsed : AvatarArgs) : ParsedArgs :=
  match args with
  | [] => Parsed parsed
  | arg :: rest =>
      (* the branches that do not look at [args[i + 1]] *)
      let flag :=
        if isGrayscaleFlag arg then
          parseArgsFrom rest
            (mkAvatarArgs (arg_portrait parsed) (arg_color parsed)
               (arg_size parsed) (arg_output parsed) true
               (arg_withShadow parsed))
        else if String.eqb arg "--no-shadow" then
          parseArgsFrom rest
            (mkAvatarArgs (arg_portrait parsed) (arg_color parsed)
               (arg_size parsed) (arg_output parsed) (arg_grayscale parsed)
               false)
        else if isHelpFlag arg then HelpRequested
        else parseArgsFrom rest parsed in
      match rest with
      | [] => flag                                  (* [i + 1 < args.length] fails *)
      | value :: rest' =>
          if String.eqb arg "--portrait" then
            parseArgsFrom rest'
              (mkAvatarArgs (Some value) (arg_color parsed) (arg_size parsed)
                 (arg_output parsed) (arg_grayscale parsed)
                 (arg_withShadow parsed))
          else if String.eqb arg "--color" then
            parseArgsFrom rest'
              (mkAvatarArgs (arg_portrait parsed)
                 (Some (Js.toLowerCase value)) (arg_size parsed)
                 (arg_output parsed) (arg_grayscale parsed)
                 (arg_withShadow parsed))
          else if String.eqb arg "--size" then
            parseArgsFrom rest'
              (mkAvatarArgs (arg_portrait parsed) (arg_color parsed)
                 (parseIntDecimal value) (arg_output parsed)
                 (arg_grayscale parsed) (arg_withShadow parsed))
          else if String.eqb arg "--output" then
            parseArgsFrom rest'
              (mkAvatarArgs (arg_portrait parsed) (arg_color parsed)
                 (arg_size parsed) (Some value) (arg_grayscale parsed)
                 (arg_withShadow parsed))
          else flag
      end
  end.

(** [parseArgs()] on the arguments [args], with the defaults of
    [AVATAR_CONFIG.defaults]. *)
Definition parseArgs (defaultSize : Js.Number)
    (defaultGrayscale defaultWithShadow : bool) (args : list string)
    : ParsedArgs :=
  parseArgsFrom args
    (mkAvatarArgs None None defaultSize None defaultGrayscale defaultWithShadow).

(** What a run of the loop can have changed, given the flags that occur. *)
Definition unchangedWithoutFlag (args : list string)
    (before after : AvatarArgs) : Prop :=
  ("--portrait" ∉ args -> arg_portrait after = arg_portrait before) /\
  ("--color" ∉ args -> arg_color after = arg_color before) /\
  ("--size" ∉ args -> arg_size after = arg_size before) /\
  ("--output" ∉ args -> arg_output after = arg_output before) /\
  ("--grayscale" ∉ args -> "--grey" ∉ args -> "--gray" ∉ args ->
   arg_grayscale after = arg_grayscale before) /\
  ("--no-shadow" ∉ args -> arg_withShadow after = arg_withShadow before).


(** ** [main] of the avatar generator: the choice of the mode *)

Inductive MainAction :=
| ShowHelp                                        (* [showHelp(); process.exit(0)] *)
| RejectColor (color : string)                    (* [error(...); process.exit(1)] *)
| Generate (portrait color : string) (size : Js.Number) (output : string)
           (grayscale withShadow : bool)          (* command-line mode *)
| Interactive.

(** A string option as a condition: [null] and the empty string are falsy. *)
Definition truthy (value : option string) : bool :=
  match value with
  | Some (String _ _) => true
  | _ => false
  end.

Definition brandColorNames : list string := ["aqua"; "navy"; "fuchsia"].

Definition includes (names : list string) (name : string) : bool :=
  existsb (String.eqb name) names.

(** The decision taken by [main] on the parsed arguments;
    [configColorNames] is [Object.keys(CONFIG.brand.colors)]. *)
Definition mainAction (configColorNames : list string) (args : ParsedArgs)
    : MainAction :=
  match args with
  | HelpRequested => ShowHelp
  | Parsed parsed =>
      if truthy (arg_portrait parsed) && truthy (arg_color parsed)
         && truthy (arg_output parsed)
      then
        let validColors :=
          List.filter (includes brandColorNames) configColorNames in
        let color := default EmptyString (arg_color parsed) in
        if includes validColors color
        then Generate (default EmptyString (arg_portrait parsed)) color
                      (arg_size parsed)
                      (default EmptyString (arg_output parsed))
                      (arg_grayscale parsed) (arg_withShadow parsed)
        else RejectColor color
      else Interactive
  end.

(** ** [scripts/config-loader.mjs]: [loadConfig] and [loadBrandColors] *)

(** The values handled by the loader: what [JSON.parse] returns, and
    [undefined], which only a property access yields.  An object is the
    list of its own properties. *)
#[local] Unset Elimination Schemes.
Inductive JsValue :=
| JUndefined
| JNull
| JBool (b : bool)
| JNumber (q : Q)
| JString (s : string)
| JArray (items : list JsValue)
| JObject (fields : list (string * JsValue)).
#[local] Set Elimination Schemes.

(** A value as a condition. *)
Definition truthyValue (v : JsValue) : bool :=
  match v with
  | JUndefined | JNull => false
  | JBool b => b
  | JNumber q => negb (Qeq_bool q 0)
  | JString s => negb (String.eqb s EmptyString)
  | JArray _ | JObject _ => true
  end.

Fixpoint lookupField (key : string) (fields : list (string * JsValue))
    : option JsValue :=
  match fields with
  | [] => None
  | (k, v) :: rest => if String.eqb k key then Some v else lookupField key rest
  end.

(** [v.key] for a key that no prototype defines: [None] is the TypeError
    thrown for [undefined] and [null]. *)
Definition getField (v : JsValue) (key : string) : option JsValue :=
  match v with
  | JUndefined | JNull => None
  | JObject fields => Some (default JUndefined (lookupField key fields))
  | _ => Some JUndefined
  end.

(** [v.k1.k2...] *)
Fixpoint getPath (v : JsValue) (keys : list string) : option JsValue :=
  match keys with
  | [] => Some v
  | key :: rest =>
      match getField v key with
      | Some field => getPath field rest
      | None => None
      end
  end.

(** The two files as the loader finds them: whether they exist, and the
    result of [JSON.parse(readFileSync(path))], [None] when that throws. *)
Record LoaderFiles := mkLoaderFiles {
  configExists : bool;
  configContent : option JsValue;
  colorsExists : bool;
  colorsContent : option JsValue
}.

Inductive LoaderError :=
| ConfigLoadFailed          (* "Failed to load config file: ..." *)
| PropertyOfUndefined.      (* the TypeError of a property access *)

Inductive LoaderEvent :=
| ReadConfig
| ReadColors
| WarnColors.               (* "Could not load colors.json, using defaults from config" *)

(** A call of the loader: the result, the new value of the module variable
    [cachedConfig], and the events of the call. *)
Definition LoaderResult (A : Type) : Type :=
  (LoaderError + A) * JsValue * list LoaderEvent.

Definition loadConfig (files : LoaderFiles) (cachedConfig : JsValue)
    : LoaderResult JsValue :=
  if truthyValue cachedConfig then (inr cachedConfig, cachedConfig, [])
  else if negb (configExists files) then (inl ConfigLoadFailed, cachedConfig, [])
  else
    match configContent files with
    | None => (inl ConfigLoadFailed, cachedConfig, [ReadConfig])
    | Some configData => (inr configData, configData, [ReadConfig])
    end.

Record BrandColors := mkBrandColors {
  bc_aqua : JsValue;
  bc_navy : JsValue;
  bc_fuchsia : JsValue
}.

(** The object literal with the three colours found under [prefix]; the
    three accesses are evaluated in order and the first TypeError ends
    the evaluation. *)
Definition readColors (data : JsValue) (prefix : list string) (leaf : list string)
    : option BrandColors :=
  match getPath data (prefix ++ ["aqua"] ++ leaf) with
  | None => None
  | Some aqua =>
      match getPath data (prefix ++ ["navy"] ++ leaf) with
      | None => None
      | Some navy =>
          match getPath data (prefix ++ ["fuchsia"] ++ leaf) with
          | None => None
          | Some fuchsia => Some (mkBrandColors aqua navy fuchsia)
          end
      end
  end.

(** "Fallback to config" *)
Definition brandColorsFromConfig (files : LoaderFiles) (cachedConfig : JsValue)
    (events : list LoaderEvent) : LoaderResult BrandColors :=
  match loadConfig files cachedConfig with
  | (inl err, cache, evs) => (inl err, cache, events ++ evs)
  | (inr config, cache, evs) =>
      match readColors config ["brand"; "colors"] [] with
      | Some colors => (inr colors, cache, events ++ evs)
      | None => (inl PropertyOfUndefined, cache, events ++ evs)
      end
  end.

Definition loadBrandColors (files : LoaderFiles) (cachedConfig : JsValue)
    : LoaderResult BrandColors :=
  if colorsExists files then
    match colorsContent files with
    | None =>
        brandColorsFromConfig files cachedConfig [ReadColors; WarnColors]
    | Some colorsData =>
        match readColors colorsData ["selection"] ["hex"] with
        | Some colors => (inr colors, cachedConfig, [ReadColors])
        | None =>
            brandColorsFromConfig files cachedConfig [ReadColors; WarnColors]
        end
    end
  else brandColorsFromConfig files cachedConfig [].

(** A configuration with the three brand colours, and a colours file whose
    navy entry is missing. *)
Definition example_config_json : JsValue :=
  JObject [("brand",
            JObject [("colors",
                      JObject [("aqua", JString "#00FFDC");
                               ("navy", JString "#1E2A45");
                               ("fuchsia", JString "#FF008F")])])].

Definition example_broken_colors : JsValue :=
  JObject [("selection",
            JObject [("aqua", JObject [("hex", JString "#00FFDD")])])].

(** ** Batches of avatars: [promptMultipleAvatars] and the sample generator *)

(** [`avatar-${portraitName}-${color}-${size}${grayscaleSuffix}.png`] for
    an integer size, printed in decimal. *)
Definition avatarFileName (portraitName color : string) (size : Z)
    (grayscale : bool) : string :=
  let grayscaleSuffix := if grayscale then "-grayscale" else "" in
  "avatar-" +:+ portraitName +:+ "-" +:+ color +:+ "-" +:+ pretty size
    +:+ grayscaleSuffix +:+ ".png".

(** An entry of [configs]; the output path is the file name joined to the
    output directory. *)
Record AvatarJob := mkAvatarJob {
  job_portraitPath : string;
  job_color : string;
  job_size : Z;
  job_grayscale : bool;
  job_withShadow : bool;
  job_fileName : string
}.

(** The two nested loops at the end of [promptMultipleAvatars], on the
    answers to the prompts; [portraitName] is
    [basename(portraitPath, extname(portraitPath))]. *)
Definition multipleAvatarJobs (portraitPath portraitName : string)
    (grayscale withShadow : bool) (selectedColors : list string)
    (selectedSizes : list Z) : list AvatarJob :=
  color ← selectedColors;
  size ← selectedSizes;
  [mkAvatarJob portraitPath color size grayscale withShadow
               (avatarFileName portraitName color size grayscale)].


(** *** The sample generator ([generateSampleAvatars]) *)

Inductive BatchEvent :=
| BatchMkDir (dir : string)
| BatchNoPortraits                       (* "Keine Portrait-Dateien ..." *)
| BatchPortrait (portraitName : string)  (* "Verarbeite Portrait: ..." *)
| BatchAttempt (fileName : string)       (* "  Generiere: ..." *)
| BatchFailure (fileName : string) (err : AvatarError)  (* "  Fehler bei ..." *)
| FromAvatar (e : AvatarEvent).          (* an event of [generateAvatar] *)

Inductive BatchError := ProcessExit (code : Z).

(** The counters [totalAvatars] and [generatedAvatars]. *)
Record BatchResult := mkBatchResult {
  totalAvatars : nat;
  generatedAvatars : list string
}.

Record SampleVariant := mkSampleVariant {
  variant_grayscale : bool;
  variant_withShadow : bool;
  variant_suffix : string
}.

Definition sampleColors : list string := ["aqua"; "navy"; "fuchsia"].
Definition sampleSizes : list Z := [256; 512].
Definition sampleVariants : list SampleVariant :=
  [mkSampleVariant false true ""; mkSampleVariant true true "-grayscale"].

(** [for (const x of items) ...] with the variables the body updates. *)
Fixpoint foldEff {E X A S} (items : list A) (body : S -> A -> Eff E X S)
    (s : S) : Eff E X S :=
  match items with
  | [] => eff_ret s
  | x :: rest => s' <- body s x ;; foldEff rest body s'
  end.

(** The [try] block of one variant: the events of the call of
    [generateAvatar] are those of its run; an error it throws is caught
    and logged. *)
Definition attemptAvatar (w : World) (joinPath : string -> string -> string)
    (outputDir portraitPath portraitName color : string) (size : Z)
    (variant : SampleVariant) (counters : BatchResult)
    : Eff BatchEvent BatchError BatchResult :=
  fun log =>
    let outputFileName :=
      "avatar-" +:+ portraitName +:+ "-" +:+ color +:+ "-" +:+ pretty size
        +:+ variant_suffix variant +:+ ".png" in
    let outputPath := joinPath outputDir outputFileName in
    let '(result, events) :=
      run (generateAvatar w portraitPath color (Js.ofZ size) outputPath
             (variant_grayscale variant) (variant_withShadow variant)) in
    let log' := log ++ [BatchAttempt outputFileName] ++ map FromAvatar events in
    match result with
    | inr _ =>
        (inr {| totalAvatars := S (totalAvatars counters);
                generatedAvatars :=
                  generatedAvatars counters ++ [outputFileName] |},
         log')
    | inl err => (inr counters, log' ++ [BatchFailure outputFileName err])
    end.

(** [generateSampleAvatars] from the list of portrait files found;
    [joinPath] and [portraitNameOf] are [join] and
    [basename(path, extname(path))] of the path module. *)
Definition generateSampleAvatars (w : World)
    (joinPath : string -> string -> string)
    (portraitNameOf : string -> string)
    (outputDir : string) (portraitFiles : list string)
    : Eff BatchEvent BatchError BatchResult :=
  when (negb (existsSync w outputDir)) (emit (BatchMkDir outputDir)) ;;
  (if (length portraitFiles =? 0)%nat
   then emit BatchNoPortraits ;; throw (ProcessExit 1)
   else eff_ret tt) ;;
  foldEff portraitFiles
    (fun counters portraitPath =>
       let portraitName := portraitNameOf portraitPath in
       emit (BatchPortrait portraitName) ;;
       foldEff sampleColors
         (fun counters color =>
            foldEff sampleSizes
              (fun counters size =>
                 foldEff sampleVariants
                   (fun counters variant =>
                      attemptAvatar w joinPath outputDir portraitPath
                        portraitName color size variant counters)
                   counters)
              counters)
         counters)
    (mkBatchResult 0 []).

Definition isBatchAttempt (e : BatchEvent) : bool :=
  match e with
  | BatchAttempt _ => true
  | _ => false
  end.

Definition isBatchFailure (e : BatchEvent) : bool :=
  match e with
  | BatchFailure _ _ => true
  | _ => false
  end.

Definition attemptsIn (log : list BatchEvent) : nat :=
  length (List.filter isBatchAttempt log).

Definition failuresIn (log : list BatchEvent) : nat :=
  length (List.filter isBatchFailure log).

(** The effect of [n] attempts on the counters and on the log. *)
Definition batchProgress (n : nat) (before : BatchResult)
    (res : BatchError + BatchResult) (new : list BatchEvent) : Prop :=
  exists after,
    res = inr after /\
    (totalAvatars before = length (generatedAvatars before) ->
     totalAvatars after = length (generatedAvatars after)) /\
    attemptsIn new = n /\
    (totalAvatars after + failuresIn new = totalAvatars before + n)%nat.

(** A computation only appends to the log, and what it appends and
    returns does not depend on the log it starts from. *)
Definition appendOnly {E X A} (m : Eff E X A) : Prop :=
  forall log, m log = (fst (m []), log ++ snd (m [])).

(** * Properties *)

(** ** Arithmetic of the embedding *)

Lemma floor_half_div (a : Z) : Js.floor_half a = a / 2.
Proof.
  unfold Js.floor_half, Qfloor, Qdiv, Qmult, Qinv, inject_Z. simpl.
  now rewrite Z.mul_1_r.
Qed.

Lemma floor_scale_mono (m : Q) (s1 s2 : Z) :
  (0 <= m)%Q -> s1 <= s2 ->
  Js.floor (Js.scale s1 m) <= Js.floor (Js.scale s2 m).
Proof.
  intros Hm Hs. unfold Js.floor, Js.scale.
  apply Qfloor_resp_le.
  apply Qmult_le_compat_r; [| exact Hm].
  now rewrite <- Zle_Qle.
Qed.

Lemma floor_scale_ge (m : Q) (n : Z) :
  (1 <= m)%Q -> 0 <= n -> n <= Js.floor (Js.scale n m).
Proof.
  intros Hm Hn. unfold Js.floor, Js.scale.
  rewrite <- (Qfloor_Z n) at 1.
  apply Qfloor_resp_le.
  apply Qle_trans with (1 * inject_Z n)%Q.
  - apply Qle_lteq. right. symmetry. apply Qmult_1_l.
  - apply Qle_trans with (m * inject_Z n)%Q.
    + apply Qmult_le_compat_r; [exact Hm |].
      change (inject_Z 0 <= inject_Z n)%Q. now rewrite <- Zle_Qle.
    + apply Qle_lteq. right. apply Qmult_comm.
Qed.

Lemma shadowSizeOf_ge (m : Q) (size : Z) :
  (1 <= m)%Q -> 1 <= size -> size <= shadowSizeOf m size /\ 1 <= shadowSizeOf m size.
Proof.
  intros Hm Hs. unfold shadowSizeOf.
  pose proof (floor_scale_ge m size Hm ltac:(lia)). lia.
Qed.

(** The two facts above do not depend on products being exact: they hold
    for the floor of any rounded product, as long as rounding is monotone
    and leaves integers unchanged, which is the case for rounding to the
    nearest double below 2^53. *)
Section RoundedProducts.

Variable fl : Q -> Q.
Hypothesis fl_monotone : forall x y : Q, (x <= y)%Q -> (fl x <= fl y)%Q.
Hypothesis fl_integer : forall z : Z, (fl (inject_Z z) == inject_Z z)%Q.

Lemma rounded_floor_mono (m : Q) (s1 s2 : Z) :
  (0 <= m)%Q -> s1 <= s2 ->
  Qfloor (fl (Js.scale s1 m)) <= Qfloor (fl (Js.scale s2 m)).
Proof.
  intros Hm Hs. apply Qfloor_resp_le, fl_monotone. unfold Js.scale.
  apply Qmult_le_compat_r; [| exact Hm].
  now rewrite <- Zle_Qle.
Qed.

Lemma rounded_floor_ge (m : Q) (n : Z) :
  (1 <= m)%Q -> 0 <= n -> n <= Qfloor (fl (Js.scale n m)).
Proof.
  intros Hm Hn.
  rewrite <- (Qfloor_Z n) at 1.
  rewrite <- (Qfloor_comp _ _ (fl_integer n)).
  apply Qfloor_resp_le, fl_monotone. unfold Js.scale.
  apply Qle_trans with (1 * inject_Z n)%Q.
  - apply Qle_lteq. right. symmetry. apply Qmult_1_l.
  - apply Qle_trans with (m * inject_Z n)%Q.
    + apply Qmult_le_compat_r; [exact Hm |].
      change (inject_Z 0 <= inject_Z n)%Q. now rewrite <- Zle_Qle.
    + apply Qle_lteq. right. apply Qmult_comm.
Qed.

End RoundedProducts.

(** ** The tiered offset *)

Lemma shadowOffsetMagnitude_band (cfg : ShadowOffsetConfig) (size : Z) :
  shadowOffsetMagnitude cfg size =
  Z.max (minOffset (band_of cfg (selectBand cfg size)))
        (Js.floor (Js.scale size
           (offsetMultiplier (band_of cfg (selectBand cfg size))))).
Proof.
  unfold shadowOffsetMagnitude, selectBand.
  destruct (size <=? maxSize (small cfg)); [reflexivity |].
  destruct (size <=? maxSize (medium cfg)); reflexivity.
Qed.




(** C7: for sizes s1 <= s2 that select the same band, whose multiplier is
    not negative, offset(s1) <= offset(s2). *)
Theorem C7_offset_monotone_in_band (cfg : ShadowOffsetConfig) (s1 s2 : Z) :
  s1 <= s2 ->
  selectBand cfg s1 = selectBand cfg s2 ->
  (0 <= offsetMultiplier (band_of cfg (selectBand cfg s1)))%Q ->
  shadowOffsetMagnitude cfg s1 <= shadowOffsetMagnitude cfg s2.
Proof.
  intros Hle Hband Hm.
  rewrite !shadowOffsetMagnitude_band, <- Hband.
  pose proof (floor_scale_mono _ s1 s2 Hm Hle). lia.
Qed.

Lemma C7_offset_monotone_in_band_witness :
  shadowOffsetMagnitude example_offsets 300 <= shadowOffsetMagnitude example_offsets 512.
Proof.
  apply (C7_offset_monotone_in_band example_offsets 300 512).
  - lia.
  - reflexivity.
  - vm_compute. discriminate.
Defined.

(** ** Placement and clipping *)

Ltac unfold_placement :=
  unfold planShadow, placeShadow, cropToCanvas, calculateShadowOffset;
  rewrite ?floor_half_div;
  cbn [shadowX shadowY crop finalShadowX finalShadowY off_x off_y
       cropLeft cropTop cropRight cropBottom cropWidth cropHeight].

Lemma cropToCanvas_within (size shadowSize x y : Z) :
  let c := cropToCanvas size shadowSize x y in
  Z.max 0 x + cropWidth c <= size /\ Z.max 0 y + cropHeight c <= size.
Proof. unfold cropToCanvas; cbn. lia. Qed.

(** The crop is positive exactly when the silhouette overlaps the canvas. *)
Lemma cropWidth_pos_iff (size shadowSize x y : Z) :
  0 < cropWidth (cropToCanvas size shadowSize x y) <->
  0 < shadowSize /\ 0 < size /\ - shadowSize < x < size.
Proof. unfold cropToCanvas; cbn. lia. Qed.

Lemma cropHeight_pos_iff (size shadowSize x y : Z) :
  0 < cropHeight (cropToCanvas size shadowSize x y) <->
  0 < shadowSize /\ 0 < size /\ - shadowSize < y < size.
Proof. unfold cropToCanvas; cbn. lia. Qed.

(** When [extract] is not called the whole silhouette is the visible part. *)
Lemma no_extract_full_raster (size shadowSize x y : Z) :
  needsExtract shadowSize (cropToCanvas size shadowSize x y) = false ->
  cropToCanvas size shadowSize x y =
    {| cropLeft := 0; cropTop := 0; cropRight := shadowSize;
       cropBottom := shadowSize; cropWidth := shadowSize;
       cropHeight := shadowSize |}.
Proof.
  unfold needsExtract, cropToCanvas; cbn. intros H.
  repeat (apply orb_false_iff in H; destruct H as [H ?]).
  rewrite Z.ltb_ge in *.
  f_equal; lia.
Qed.

(** C5: for every canvas size, silhouette size and offset, each axis is
    placed at floor((C - S) / 2) - offset, the visible source rectangle is
    cropLeft = max(0, -x), cropTop = max(0, -y), cropRight = min(S, C - x),
    cropBottom = min(S, C - y), and the cropped raster is composited at
    (max(0, x), max(0, y)). *)
Theorem C5_placement_formulas (size shadowSize offset : Z) :
  let p := placeShadow size shadowSize (mkOffset (- offset) (- offset)) in
  shadowX p = (size - shadowSize) / 2 - offset /\
  shadowY p = (size - shadowSize) / 2 - offset /\
  cropLeft (crop p) = Z.max 0 (- shadowX p) /\
  cropTop (crop p) = Z.max 0 (- shadowY p) /\
  cropRight (crop p) = Z.min shadowSize (size - shadowX p) /\
  cropBottom (crop p) = Z.min shadowSize (size - shadowY p) /\
  cropWidth (crop p) = cropRight (crop p) - cropLeft (crop p) /\
  cropHeight (crop p) = cropBottom (crop p) - cropTop (crop p) /\
  (finalShadowX p, finalShadowY p) = (Z.max 0 (shadowX p), Z.max 0 (shadowY p)).
Proof.
  unfold_placement. repeat split; try reflexivity; lia.
Qed.

(** C10: whenever the visible crop width and height are positive, the
    cropped layer placed at (max(0, x), max(0, y)) lies inside the canvas,
    for every canvas size, shadow size and integer placement (x, y). *)
Theorem C10_cropped_layer_within_canvas (size shadowSize x y : Z) :
  let c := cropToCanvas size shadowSize x y in
  0 < cropWidth c -> 0 < cropHeight c ->
  0 <= Z.max 0 x /\ Z.max 0 x + cropWidth c <= size /\
  0 <= Z.max 0 y /\ Z.max 0 y + cropHeight c <= size.
Proof.
  intros c _ _. pose proof (cropToCanvas_within size shadowSize x y). cbv zeta in *.
  subst c. lia.
Qed.

Lemma C10_cropped_layer_within_canvas_witness :
  let c := cropToCanvas 512 614 (-71) (-71) in
  0 <= Z.max 0 (-71) /\ Z.max 0 (-71) + cropWidth c <= 512 /\
  0 <= Z.max 0 (-71) /\ Z.max 0 (-71) + cropHeight c <= 512.
Proof.
  apply (C10_cropped_layer_within_canvas 512 614 (-71) (-71)); vm_compute; reflexivity.
Defined.




(** ** Shadow colour selection *)

(** C4 (as stated): for a background without entry, or with an empty one,
    the specified selection fails while the code answers "navy". *)
Lemma C4_counterexample :
  spec_selectShadowColor example_colorMap "white" = inl NoShadowColorAvailable /\
  getShadowColor example_colorMap "white" = "navy" /\
  spec_selectShadowColor {[ "aqua" := [] ]} "aqua" = inl NoShadowColorAvailable /\
  getShadowColor {[ "aqua" := [] ]} "aqua" = "navy".
Proof. repeat split; vm_compute; reflexivity. Qed.

(** C4 (amended): the selection returns the first candidate of the entry
    of the lower-cased background name; when the entry is missing or empty
    it returns "navy", and it never fails. *)
Theorem C4_first_candidate_or_navy (colorMap : gmap string (list string))
    (backgroundColor : string) :
  let options := colorMap !! Js.toLowerCase backgroundColor in
  (forall first rest, options = Some (first :: rest) ->
     getShadowColor colorMap backgroundColor = first /\
     spec_selectShadowColor colorMap backgroundColor = inr first) /\
  (options = None \/ options = Some [] ->
     getShadowColor colorMap backgroundColor = "navy" /\
     spec_selectShadowColor colorMap backgroundColor = inl NoShadowColorAvailable).
Proof.
  unfold getShadowColor, spec_selectShadowColor. cbv zeta.
  destruct (colorMap !! Js.toLowerCase backgroundColor) as [[| c cs] |].
  - split; [intros ? ? [=] | intros _; split; reflexivity].
  - split; [intros ? ? [= <- <-]; split; reflexivity | intros [[=] | [=]]].
  - split; [intros ? ? [=] | intros _; split; reflexivity].
Qed.

(** ** Hex colours *)

Ltac each_ascii c := destruct c as [[] [] [] [] [] [] [] []].

Lemma isHexChar_hexDigit (c : ascii) : isHexChar c = hexDigit c.
Proof. each_ascii c; vm_compute; reflexivity. Qed.

Lemma digitValue_hex (c : ascii) :
  isHexChar c = true -> exists d, Js.digitValue c = Some d /\ 0 <= d < 16.
Proof.
  each_ascii c; intros H; try (vm_compute in H; discriminate H);
    eexists; (split; [vm_compute; reflexivity | lia]).
Qed.

Lemma parseInt_hex_pair (c1 c2 : ascii) :
  isHexChar c1 = true -> isHexChar c2 = true ->
  isChannel (Js.parseInt (String c1 (String c2 EmptyString)) 16).
Proof.
  intros H1 H2.
  destruct (digitValue_hex c1 H1) as (d1 & E1 & B1).
  destruct (digitValue_hex c2 H2) as (d2 & E2 & B2).
  unfold Js.parseInt, Js.parseDigits. rewrite E1, E2.
  assert ((d1 <? 16) = true) as -> by (apply Z.ltb_lt; lia).
  assert ((d2 <? 16) = true) as -> by (apply Z.ltb_lt; lia).
  exists ((0 * 16 + d1) * 16 + d2). split; [reflexivity | lia].
Qed.

Lemma matchGroups_six (s : string) :
  if sixHexDigits s
  then exists c1 c2 c3 c4 c5 c6,
         s = String c1 (String c2 (String c3 (String c4 (String c5
               (String c6 EmptyString))))) /\
         isHexChar c1 = true /\ isHexChar c2 = true /\ isHexChar c3 = true /\
         isHexChar c4 = true /\ isHexChar c5 = true /\ isHexChar c6 = true /\
         matchGroups s = Some (String c1 (String c2 EmptyString),
                               String c3 (String c4 EmptyString),
                               String c5 (String c6 EmptyString))
  else matchGroups s = None.
Proof.
  destruct s as [| c1 [| c2 [| c3 [| c4 [| c5 [| c6 [| c7 rest]]]]]]];
    unfold sixHexDigits, matchGroups;
    cbn [String.length Nat.eqb andb allHex matchHexPair];
    rewrite <- ?isHexChar_hexDigit;
    repeat (match goal with
            | |- context [isHexChar ?c] => destruct (isHexChar c) eqn:?
            end; cbn [andb matchHexPair]);
    try reflexivity.
  exists c1, c2, c3, c4, c5, c6. repeat split; assumption.
Qed.

Lemma hexPatternExec_other (c : ascii) (rest : string) :
  c <> "#"%char ->
  hexPatternExec (String c rest) = matchGroups (String c rest) /\
  isHexColor (String c rest) = sixHexDigits (String c rest).
Proof.
  intros H. unfold isHexColor.
  each_ascii c; first [ now rewrite orb_false_r | exfalso; apply H; reflexivity ].
Qed.

Lemma matchGroups_hash (rest : string) :
  matchGroups (String "#" rest) = None /\ sixHexDigits (String "#" rest) = false.
Proof.
  pose proof (matchGroups_six (String "#" rest)) as H.
  destruct (sixHexDigits (String "#" rest)); [| now split].
  destruct H as (c1 & c2 & c3 & c4 & c5 & c6 & E & H1 & _).
  injection E as <- _. discriminate H1.
Qed.

Lemma hexPatternExec_six (hex : string) :
  if isHexColor hex
  then exists c1 c2 c3 c4 c5 c6,
         isHexChar c1 = true /\ isHexChar c2 = true /\ isHexChar c3 = true /\
         isHexChar c4 = true /\ isHexChar c5 = true /\ isHexChar c6 = true /\
         hexPatternExec hex = Some (String c1 (String c2 EmptyString),
                                    String c3 (String c4 EmptyString),
                                    String c5 (String c6 EmptyString))
  else hexPatternExec hex = None.
Proof.
  destruct hex as [| c rest]; [reflexivity |].
  destruct (Ascii.ascii_dec c "#") as [-> | Hc].
  - destruct (matchGroups_hash rest) as [Hnone Hsix].
    unfold isHexColor. rewrite Hsix. cbn [orb].
    change (hexPatternExec (String "#" rest))
      with (match matchGroups rest with
            | Some groups => Some groups
            | None => matchGroups (String "#" rest)
            end).
    pose proof (matchGroups_six rest) as H.
    destruct (sixHexDigits rest).
    + destruct H as (c1 & c2 & c3 & c4 & c5 & c6 & _ & H1 & H2 & H3 & H4 & H5 & H6 & ->).
      exists c1, c2, c3, c4, c5, c6. repeat split; assumption.
    + now rewrite H.
  - destruct (hexPatternExec_other c rest Hc) as [-> ->].
    pose proof (matchGroups_six (String c rest)) as H.
    destruct (sixHexDigits (String c rest)); [| exact H].
    destruct H as (c1 & c2 & c3 & c4 & c5 & c6 & _ & H1 & H2 & H3 & H4 & H5 & H6 & ->).
    exists c1, c2, c3, c4, c5, c6. repeat split; assumption.
Qed.

(** C9: [hexToRgb] returns an object whose r, g, b are integers in
    [0, 255] exactly when the input is six hexadecimal digits (in either
    case) optionally preceded by one [#]; for every other string it returns
    null. *)
Theorem C9_hexToRgb_exactly (hex : string) :
  (isHexColor hex = true <->
     exists rgb, hexToRgb hex = Some rgb /\
                 isChannel (r rgb) /\ isChannel (g rgb) /\ isChannel (b rgb)) /\
  (isHexColor hex = false <-> hexToRgb hex = None).
Proof.
  pose proof (hexPatternExec_six hex) as H. unfold hexToRgb.
  destruct (isHexColor hex).
  - destruct H as (c1 & c2 & c3 & c4 & c5 & c6 & H1 & H2 & H3 & H4 & H5 & H6 & ->).
    split; split; try discriminate; intros _; [| reflexivity].
    eexists. split; [reflexivity |]. cbn [r g b].
    repeat split; now apply parseInt_hex_pair.
  - rewrite H. split; split; try reflexivity; try discriminate.
    intros (rgb & [=] & _).
Qed.

Example hexToRgb_aqua :
  hexToRgb "#00FFDC" = Some {| r := Js.ofZ 0; g := Js.ofZ 255; b := Js.ofZ 220 |}.
Proof. reflexivity. Qed.

Example hexToRgb_navy_lower_no_hash :
  hexToRgb "1e2a45" = Some {| r := Js.ofZ 30; g := Js.ofZ 42; b := Js.ofZ 69 |}.
Proof. reflexivity. Qed.

Example hexToRgb_rejects :
  hexToRgb "#12345" = None /\ hexToRgb "##123456" = None /\
  hexToRgb "#00FFDG" = None /\ hexToRgb "undefined" = None /\
  hexToRgb "#00FFDC " = None.
Proof. repeat split; reflexivity. Qed.

(** ** The recolouring loop *)

Lemma toUint8_byte (v : Z) : isByte v -> Js.toUint8 (Js.ofZ v) = v.
Proof.
  intros [Hlo Hhi]. unfold Js.toUint8, Js.ofZ, Js.trunc.
  assert (Qle_bool 0 (inject_Z v) = true) as ->.
  { apply Qle_bool_iff. change (inject_Z 0 <= inject_Z v)%Q.
    now rewrite <- Zle_Qle. }
  rewrite Qfloor_Z. apply Z.mod_small. lia.
Qed.

Lemma toUint8_is_byte (n : Js.Number) : isByte (Js.toUint8 n).
Proof.
  unfold isByte. destruct n; cbn; try lia.
  apply Z.mod_pos_bound. lia.
Qed.

Section RecolorLoop.

Variable shadowRgb : RGB.
Variable portraitData : list Z.

Let step := recolorPixel shadowRgb portraitData.

Local Ltac insert_other :=
  rewrite ?list_lookup_insert_ne by lia.
Local Ltac insert_same :=
  rewrite list_lookup_insert_eq by (rewrite ?length_insert; lia).

Lemma recolorPixel_length (buf : list Z) (i : nat) :
  length (step buf i) = length buf.
Proof. unfold step, recolorPixel, store. now rewrite !length_insert. Qed.

Lemma recolorPixel_other (buf : list Z) (i j : nat) :
  (j < i * 4 \/ i * 4 + 4 <= j)%nat -> step buf i !! j = buf !! j.
Proof.
  intros Hj. unfold step, recolorPixel, store. now insert_other.
Qed.

Lemma recolorPixel_written (buf : list Z) (i : nat) :
  (i * 4 + 3 < length buf)%nat ->
  step buf i !! (i * 4 + 0)%nat = Some (Js.toUint8 (r shadowRgb)) /\
  step buf i !! (i * 4 + 1)%nat = Some (Js.toUint8 (g shadowRgb)) /\
  step buf i !! (i * 4 + 2)%nat = Some (Js.toUint8 (b shadowRgb)) /\
  step buf i !! (i * 4 + 3)%nat =
    Some (Js.toUint8 (load portraitData (i * 4 + 3))).
Proof.
  intros Hlen. unfold step, recolorPixel, store.
  repeat split; insert_other; now insert_same.
Qed.

(** The state of the buffer after the first [n] iterations. *)
Lemma recolor_prefix (n : nat) (buf : list Z) :
  (n * 4 <= length buf)%nat ->
  let out := foldl step buf (seq 0 n) in
  length out = length buf /\
  (forall i, (i < n)%nat ->
     out !! (i * 4 + 0)%nat = Some (Js.toUint8 (r shadowRgb)) /\
     out !! (i * 4 + 1)%nat = Some (Js.toUint8 (g shadowRgb)) /\
     out !! (i * 4 + 2)%nat = Some (Js.toUint8 (b shadowRgb)) /\
     out !! (i * 4 + 3)%nat =
       Some (Js.toUint8 (load portraitData (i * 4 + 3)))) /\
  (forall j, (n * 4 <= j)%nat -> out !! j = buf !! j).
Proof.
  induction n as [| n IH]; intros Hlen; cbv zeta.
  - cbn. split; [reflexivity |]. split; [intros i Hi; lia | reflexivity].
  - rewrite seq_S, foldl_app. cbn [foldl Nat.add].
    destruct IH as (Hl & Hdone & Hrest); [lia |].
    set (prev := foldl step buf (seq 0 n)) in *.
    split; [now rewrite recolorPixel_length |].
    split.
    + intros i Hi. destruct (decide (i = n)) as [-> | Hne].
      * apply recolorPixel_written. lia.
      * rewrite !recolorPixel_other by lia. apply Hdone. lia.
    + intros j Hj. rewrite recolorPixel_other by lia. apply Hrest. lia.
Qed.

End RecolorLoop.

(** C1: for every subject raster and target colour, the loop yields a
    raster of the same dimensions in which every pixel has the alpha of the
    source pixel and the R, G, B channels of the target colour. *)
Theorem C1_silhouette_recolor (rv gv bv shadowSize : Z)
    (portraitData alloc : list Z) :
  isByte rv -> isByte gv -> isByte bv ->
  wellFormedRaster (mkRaster shadowSize shadowSize portraitData) ->
  length alloc = Z.to_nat (shadowSize * shadowSize * 4) ->
  let shadowRgb := {| r := Js.ofZ rv; g := Js.ofZ gv; b := Js.ofZ bv |} in
  let out := createSilhouette shadowRgb shadowSize portraitData alloc in
  width out = shadowSize /\ height out = shadowSize /\
  length (data out) = length portraitData /\
  forall i, (i < Z.to_nat (shadowSize * shadowSize))%nat ->
    channel (data out) i 0 = Some rv /\
    channel (data out) i 1 = Some gv /\
    channel (data out) i 2 = Some bv /\
    channel (data out) i 3 = channel portraitData i 3 /\
    is_Some (channel portraitData i 3).
Proof.
  intros Hr Hg Hb (Hw & _ & Hlen & Hbytes) Halloc shadowRgb out.
  cbn [width height data] in *.
  assert (Hpix : (Z.to_nat (shadowSize * shadowSize) * 4 <= length alloc)%nat)
    by (rewrite Halloc; lia).
  destruct (recolor_prefix shadowRgb portraitData _ alloc Hpix)
    as (Hl & Hdone & _).
  unfold out, createSilhouette, recolorLoop, channel. cbn [width height data].
  split; [reflexivity |]. split; [reflexivity |]. split; [congruence |].
  intros i Hi. destruct (Hdone i Hi) as (H0 & H1 & H2 & H3).
  rewrite H0, H1, H2, H3. subst shadowRgb. cbn [r g b].
  rewrite !toUint8_byte by assumption.
  destruct (lookup_lt_is_Some_2 portraitData (i * 4 + 3)) as [a Ha]; [lia |].
  unfold load. rewrite Ha.
  rewrite toUint8_byte by (eapply Forall_lookup_1; eassumption).
  repeat split; eauto.
Qed.

(** ** Exceptions of effectful code *)

Section NeverThrows.

Context {E X : Type} (bad : X -> bool).

Lemma neverThrows_ret {A} (a : A) : neverThrows bad (eff_ret (E := E) a).
Proof. intros log. exact I. Qed.

Lemma neverThrows_emit (e : E) : neverThrows bad (emit (X := X) e).
Proof. intros log. exact I. Qed.

Lemma neverThrows_throw {A} (x : X) :
  bad x = false -> neverThrows bad (throw (E := E) (A := A) x).
Proof. intros H log. exact H. Qed.

Lemma neverThrows_bind {A B} (m : Eff E X A) (k : A -> Eff E X B) :
  neverThrows bad m -> (forall a, neverThrows bad (k a)) ->
  neverThrows bad (eff_bind m k).
Proof.
  intros Hm Hk log. unfold eff_bind. specialize (Hm log).
  destruct (m log) as [[x | a] log']; [exact Hm | apply Hk].
Qed.

Lemma neverThrows_when (c : bool) (m : Eff E X unit) :
  (c = true -> neverThrows bad m) -> neverThrows bad (when c m).
Proof.
  intros Hm. destruct c; [now apply Hm | apply neverThrows_ret].
Qed.

(** A handler that logs and throws the same exception again. *)
Lemma neverThrows_rethrow {A} (body : Eff E X A) (logError : X -> E) :
  neverThrows bad body ->
  neverThrows bad
    (tryCatch body (fun err => emit (logError err) ;; throw err)).
Proof.
  intros Hb log. unfold tryCatch. specialize (Hb log).
  destruct (body log) as [[x | a] log']; [exact Hb | exact I].
Qed.

End NeverThrows.

Create HintDb eff.
#[local] Hint Resolve neverThrows_ret neverThrows_emit neverThrows_bind
  neverThrows_rethrow : eff.

(** ** Validation of the requested size *)

Lemma positive_integer_passes (n : Z) :
  1 <= n -> Js.le_zero (Js.ofZ n) || negb (Js.isInteger (Js.ofZ n)) = false.
Proof.
  intros Hn. unfold Js.le_zero, Js.isInteger, Js.ofZ.
  rewrite Qfloor_Z.
  assert (Qeq_bool (inject_Z n) (inject_Z n) = true) as ->
    by (apply Qeq_bool_iff; reflexivity).
  assert (Qle_bool (inject_Z n) 0 = false) as ->; [| reflexivity].
  apply not_true_is_false. intros H. apply Qle_bool_iff in H.
  change (inject_Z n <= inject_Z 0)%Q in H. rewrite <- Zle_Qle in H. lia.
Qed.

Lemma addShadowSilhouette_no_size_error (w : World)
    (portraitPath colorName : string) (colors : gmap string string)
    (size targetSize : Z) :
  neverThrows isInvalidSize
    (addShadowSilhouette w portraitPath colorName colors size targetSize).
Proof.
  unfold addShadowSilhouette. apply neverThrows_rethrow. cbv zeta.
  destruct (hexToRgb _); [| now apply neverThrows_throw].
  destruct (_ <=? 0); [now apply neverThrows_throw |].
  repeat (apply neverThrows_bind; [| intros ?]);
    auto using neverThrows_when with eff.
Qed.

Lemma generateAvatar_no_size_error (w : World)
    (portraitPath colorName outputPath : string) (n : Z)
    (grayscale withShadow : bool) :
  1 <= n ->
  neverThrows isInvalidSize
    (generateAvatar w portraitPath colorName (Js.ofZ n) outputPath
                    grayscale withShadow).
Proof.
  intros Hn. unfold generateAvatar. apply neverThrows_rethrow.
  apply neverThrows_bind; [| intros _].
  { apply neverThrows_when. intros _. now apply neverThrows_throw. }
  cbv zeta.
  destruct (brandColors w !! _) as [[| c hex] |];
    try now apply neverThrows_throw.
  rewrite (positive_integer_passes n Hn).
  apply neverThrows_bind; [apply neverThrows_ret | intros _].
  repeat (apply neverThrows_bind; [| intros ?]);
    auto using neverThrows_when with eff.
  destruct (hexToRgb _); [| now apply neverThrows_throw].
  repeat (apply neverThrows_bind; [| intros ?]);
    auto using neverThrows_when with eff.
  destruct withShadow; auto using addShadowSilhouette_no_size_error with eff.
Qed.

(** C8: when the requested size is <= 0 or not an integer, avatar
    generation fails having done nothing but log the error - no canvas has
    been built - and the error is the invalid-size one once the portrait
    and the colour have been accepted; for a positive integer size the
    size validation passes. *)
Theorem C8_size_validation (w : World) (portraitPath colorName : string)
    (size : Js.Number) (outputPath : string) (grayscale withShadow : bool) :
  let result :=
    run (generateAvatar w portraitPath colorName size outputPath
                        grayscale withShadow) in
  (Js.le_zero size = true \/ Js.isInteger size = false ->
     (exists err, result = (inl err, [LogError err])) /\
     forallb (fun e => negb (isCreateCanvas e)) (snd result) = true /\
     (existsSync w portraitPath = true ->
      (exists hex, brandColors w !! Js.toLowerCase colorName = Some hex /\
                   hex <> EmptyString) ->
      result = (inl (InvalidSize size), [LogError (InvalidSize size)]))) /\
  (forall n, 1 <= n -> size = Js.ofZ n ->
     Js.le_zero size || negb (Js.isInteger size) = false /\
     forall err, fst result = inl err -> isInvalidSize err = false).
Proof.
  cbv zeta. split.
  - intros Hbad.
    assert (Hcheck : Js.le_zero size || negb (Js.isInteger size) = true).
    { destruct Hbad as [-> | ->]; [reflexivity | apply orb_true_r]. }
    unfold run, generateAvatar, tryCatch, eff_bind, when, throw, emit, eff_ret.
    rewrite Hcheck.
    destruct (existsSync w portraitPath); cbn [negb].
    + destruct (brandColors w !! Js.toLowerCase colorName) as [[| c hex] |] eqn:Hc;
        cbn; (split; [eauto | split; [reflexivity |]]);
        intros _ (hex' & [= <-] & Hne); congruence.
    + cbn. split; [eauto | split; [reflexivity |]]. discriminate.
  - intros n Hn ->. split; [now apply positive_integer_passes |].
    intros err Herr.
    pose proof (generateAvatar_no_size_error w portraitPath colorName
                  outputPath n grayscale withShadow Hn []) as H.
    unfold run in Herr. now rewrite Herr in H.
Qed.

(** ** Encoding within the size limit *)

Lemma exceedsLimit_budget (buffer : list Z) :
  exceedsLimit buffer = true <-> byteBudget < Z.of_nat (length buffer).
Proof.
  unfold exceedsLimit, fileSizeMB, byteBudget.
  rewrite negb_true_iff, <- not_true_iff_false, Qle_bool_iff.
  change (1024 * 1024) with 1048576.
  unfold Qle, Qdiv, Qmult, Qinv, inject_Z. cbn. lia.
Qed.

Lemma retry_is_stricter (outputFormat : string) :
  stricter (firstOptions outputFormat) (retryOptions outputFormat).
Proof.
  unfold firstOptions, retryOptions, stricter.
  destruct (String.eqb outputFormat "jpeg"); cbn;
    unfold pngMaxCompressionLevel, effortOf, pngDefaultEffort; cbn; lia.
Qed.

(** The complete log of a run whose first encoding is over the limit. *)
Lemma encodeAndWrite_retry_log (toBuffer : EncodeOptions -> option (list Z))
    (outputFormat outputPath : string) (first second : list Z) :
  toBuffer (firstOptions outputFormat) = Some first ->
  exceedsLimit first = true ->
  toBuffer (retryOptions outputFormat) = Some second ->
  run (encodeAndWrite toBuffer outputFormat outputPath) =
    (inr tt,
     [Encode (firstOptions outputFormat);
      Warn (ExceedsLimit (length first));
      Encode (retryOptions outputFormat)]
     ++ (if exceedsLimit second
         then [Warn (StillExceedsLimit (length second))] else [])
     ++ [WriteOutput outputPath second; LogDone]).
Proof.
  intros H1 Hover H2.
  unfold run, encodeAndWrite, tryCatch, encode, eff_bind, emit, when, eff_ret.
  cbn [app]. rewrite H1, Hover. cbn [app]. rewrite H2.
  destruct (exceedsLimit second); reflexivity.
Qed.

(** C6: when the first encoding exceeds the 3 MB budget, the image is
    encoded exactly once more with stricter options (JPEG quality 90 then
    75; PNG level 9 then level 9 with effort 10), the second result is
    written whether or not it fits, nothing is thrown, and a warning is
    emitted exactly when the second result is still over the budget. *)
Theorem C6_single_retry (toBuffer : EncodeOptions -> option (list Z))
    (outputFormat outputPath : string) (first second : list Z) :
  toBuffer (firstOptions outputFormat) = Some first ->
  byteBudget < Z.of_nat (length first) ->
  toBuffer (retryOptions outputFormat) = Some second ->
  let result := run (encodeAndWrite toBuffer outputFormat outputPath) in
  fst result = inr tt /\
  encodeCalls (snd result) =
    [firstOptions outputFormat; retryOptions outputFormat] /\
  stricter (firstOptions outputFormat) (retryOptions outputFormat) /\
  (firstOptions outputFormat, retryOptions outputFormat) =
    (if String.eqb outputFormat "jpeg"
     then (JpegOptions 90 true, JpegOptions 75 true)
     else (PngOptions 9 None, PngOptions 9 (Some 10))) /\
  written (snd result) = [second] /\
  (byteBudget < Z.of_nat (length second) <->
   StillExceedsLimit (length second) ∈ warnings (snd result)).
Proof.
  intros H1 Hover H2 result. subst result.
  apply exceedsLimit_budget in Hover.
  rewrite (encodeAndWrite_retry_log _ _ _ _ _ H1 Hover H2). cbn [fst snd].
  split; [reflexivity |].
  split; [destruct (exceedsLimit second); reflexivity |].
  split; [apply retry_is_stricter |].
  split; [unfold firstOptions, retryOptions;
          destruct (String.eqb outputFormat "jpeg"); reflexivity |].
  split; [destruct (exceedsLimit second); reflexivity |].
  rewrite <- exceedsLimit_budget.
  destruct (exceedsLimit second); cbn.
  - split; [intros _ | reflexivity].
    rewrite !elem_of_cons. right. now left.
  - split; [discriminate |].
    rewrite list_elem_of_singleton. discriminate.
Qed.

Lemma example_oversized_length : Z.of_nat (length example_oversized) = 4000000.
Proof. unfold example_oversized. rewrite length_replicate. lia. Qed.

Lemma C6_single_retry_witness :
  let result := run (encodeAndWrite example_codec "jpeg" "post.jpg") in
  fst result = inr tt /\
  encodeCalls (snd result) = [firstOptions "jpeg"; retryOptions "jpeg"] /\
  stricter (firstOptions "jpeg") (retryOptions "jpeg") /\
  (firstOptions "jpeg", retryOptions "jpeg") =
    (if String.eqb "jpeg" "jpeg"
     then (JpegOptions 90 true, JpegOptions 75 true)
     else (PngOptions 9 None, PngOptions 9 (Some 10))) /\
  written (snd result) = [example_oversized] /\
  (byteBudget < Z.of_nat (length example_oversized) <->
   StillExceedsLimit (length example_oversized) ∈ warnings (snd result)).
Proof.
  apply (C6_single_retry example_codec "jpeg" "post.jpg"
           example_oversized example_oversized).
  - reflexivity.
  - rewrite example_oversized_length. unfold byteBudget. lia.
  - reflexivity.
Defined.

(** ** Runs on the example inputs *)

Lemma C1_silhouette_recolor_witness :
  let shadowRgb := {| r := Js.ofZ 30; g := Js.ofZ 42; b := Js.ofZ 69 |} in
  let out := createSilhouette shadowRgb 2 example_portrait (replicate 16 7) in
  width out = 2 /\ height out = 2 /\
  length (data out) = length example_portrait /\
  forall i, (i < Z.to_nat (2 * 2))%nat ->
    channel (data out) i 0 = Some 30 /\
    channel (data out) i 1 = Some 42 /\
    channel (data out) i 2 = Some 69 /\
    channel (data out) i 3 = channel example_portrait i 3 /\
    is_Some (channel example_portrait i 3).
Proof.
  apply (C1_silhouette_recolor 30 42 69 2 example_portrait (replicate 16 7)).
  - unfold isByte. lia.
  - unfold isByte. lia.
  - unfold isByte. lia.
  - unfold wellFormedRaster, example_portrait. cbn [width height data].
    split; [lia |]. split; [lia |]. split; [reflexivity |].
    repeat constructor; unfold isByte; lia.
  - reflexivity.
Defined.

Example recolorLoop_example :
  recolorLoop {| r := Js.ofZ 30; g := Js.ofZ 42; b := Js.ofZ 69 |} 2
              example_portrait (replicate 16 7) =
  [30; 42; 69; 0;  30; 42; 69; 128;  30; 42; 69; 255;  30; 42; 69; 77].
Proof. reflexivity. Qed.

Lemma C4_first_candidate_or_navy_witness :
  getShadowColor example_colorMap "AQUA" = "navy" /\
  spec_selectShadowColor example_colorMap "AQUA" = inr "navy".
Proof.
  destruct (C4_first_candidate_or_navy example_colorMap "AQUA") as [Hfirst _].
  apply (Hfirst "navy" ["fuchsia"]). vm_compute. reflexivity.
Defined.

Lemma C8_size_validation_witness :
  run (generateAvatar example_world "portrait.png" "Aqua" (Js.ofZ 0)
                      "out/avatar.png" false true) =
  (inl (InvalidSize (Js.ofZ 0)), [LogError (InvalidSize (Js.ofZ 0))]).
Proof.
  destruct (C8_size_validation example_world "portrait.png" "Aqua" (Js.ofZ 0)
              "out/avatar.png" false true) as [Hbad _].
  destruct Hbad as (_ & _ & Herr); [left; reflexivity |].
  apply Herr; [reflexivity |].
  exists "#00FFDC". split; [vm_compute; reflexivity | discriminate].
Defined.

Example generateAvatar_fractional_size :
  run (generateAvatar example_world "portrait.png" "navy" (Js.Finite (3 # 2))
                      "out/avatar.png" false true) =
  (inl (InvalidSize (Js.Finite (3 # 2))),
   [LogError (InvalidSize (Js.Finite (3 # 2)))]).
Proof. vm_compute. reflexivity. Qed.

Example generateAvatar_unknown_color :
  run (generateAvatar example_world "portrait.png" "white" (Js.ofZ 0)
                      "out/avatar.png" false true) =
  (inl (InvalidColor "white"), [LogError (InvalidColor "white")]).
Proof. vm_compute. reflexivity. Qed.

(** The scenario of the specification: canvas 512, silhouette
    floor(512 * 1.2) = 614, medium band. *)
Example planShadow_512 :
  shadowSizeOf (shadowSizeMultiplier example_config) 512 = 614 /\
  selectBand example_offsets 512 = Medium /\
  shadowOffsetMagnitude example_offsets 512 = 20 /\
  planShadow example_config 512 =
    {| shadowX := -71; shadowY := -71;
       crop := {| cropLeft := 71; cropTop := 71; cropRight := 583;
                  cropBottom := 583; cropWidth := 512; cropHeight := 512 |};
       finalShadowX := 0; finalShadowY := 0 |}.
Proof. repeat split; vm_compute; reflexivity. Qed.

Example generateAvatar_without_shadow :
  run (generateAvatar example_world "portrait.png" "Navy" (Js.ofZ 256)
                      "out/avatar.png" true false) =
  (inr tt,
   [LogInfo; ReadMetadata "portrait.png"; ResizePortrait 256 true;
    CreateCanvas 256 256
      {| r := Js.ofZ 30; g := Js.ofZ 42; b := Js.ofZ 69 |} 1;
    Composite [mkLayer ResizedPortrait 0 0];
    WriteFile "out/avatar.png"; LogSuccess]).
Proof. vm_compute. reflexivity. Qed.

(** * Further properties of the code *)

(** ** The recolouring loop on arbitrary inputs *)

Lemma pixel_count (shadowSize : Z) :
  Z.to_nat (shadowSize * shadowSize * 4) =
  (Z.to_nat (shadowSize * shadowSize) * 4)%nat.
Proof.
  pose proof (Z.square_nonneg shadowSize). rewrite Z2Nat.inj_mul by lia.
  reflexivity.
Qed.

Lemma recolorLoop_lookup (shadowRgb : RGB) (shadowSize : Z)
    (portraitData alloc : list Z) (j : nat) :
  length alloc = Z.to_nat (shadowSize * shadowSize * 4) ->
  recolorLoop shadowRgb shadowSize portraitData alloc !! j =
    if decide (j < length alloc)%nat
    then Some (Js.toUint8 (storedAt shadowRgb portraitData j))
    else None.
Proof.
  intros Hlen. rewrite pixel_count in Hlen. unfold recolorLoop.
  destruct (recolor_prefix shadowRgb portraitData
              (Z.to_nat (shadowSize * shadowSize)) alloc) as (Hl & Hdone & _);
    [lia |].
  case_decide as Hj.
  - assert (Hi : (j `div` 4 < Z.to_nat (shadowSize * shadowSize))%nat).
    { apply Nat.Div0.div_lt_upper_bound. lia. }
    destruct (Hdone _ Hi) as (H0 & H1 & H2 & H3).
    pose proof (Nat.div_mod_eq j 4) as Hdm.
    pose proof (Nat.mod_upper_bound j 4 ltac:(lia)) as Hm.
    unfold storedAt.
    destruct (j mod 4)%nat as [| [| [| [| k]]]] eqn:Hc; try lia.
    + replace j with (j `div` 4 * 4 + 0)%nat at 1 by lia. exact H0.
    + replace j with (j `div` 4 * 4 + 1)%nat at 1 by lia. exact H1.
    + replace j with (j `div` 4 * 4 + 2)%nat at 1 by lia. exact H2.
    + replace j with (j `div` 4 * 4 + 3)%nat at 1 by lia.
      rewrite H3. do 3 f_equal. lia.
  - apply lookup_ge_None. lia.
Qed.

(** X1: the silhouette does not depend on the content of the buffer
    obtained from [Buffer.allocUnsafe]: every byte of it is overwritten. *)
Theorem recolorLoop_ignores_allocation (shadowRgb : RGB) (shadowSize : Z)
    (portraitData alloc1 alloc2 : list Z) :
  length alloc1 = Z.to_nat (shadowSize * shadowSize * 4) ->
  length alloc2 = Z.to_nat (shadowSize * shadowSize * 4) ->
  recolorLoop shadowRgb shadowSize portraitData alloc1 =
  recolorLoop shadowRgb shadowSize portraitData alloc2.
Proof.
  intros H1 H2. apply list_eq. intros j.
  rewrite !recolorLoop_lookup by assumption. rewrite H1, H2. reflexivity.
Qed.

Lemma recolorLoop_ignores_allocation_witness :
  recolorLoop transparent 2 example_portrait (replicate 16 7) =
  recolorLoop transparent 2 example_portrait (replicate 16 255).
Proof.
  apply (recolorLoop_ignores_allocation transparent 2 example_portrait
           (replicate 16 7) (replicate 16 255)); reflexivity.
Defined.

(** X2: whatever the colour (channels out of range, fractional or NaN)
    and whatever the source data, the silhouette buffer keeps its length
    and holds bytes only. *)
Theorem recolorLoop_bytes (shadowRgb : RGB) (shadowSize : Z)
    (portraitData alloc : list Z) :
  length alloc = Z.to_nat (shadowSize * shadowSize * 4) ->
  let out := recolorLoop shadowRgb shadowSize portraitData alloc in
  length out = Z.to_nat (shadowSize * shadowSize * 4) /\ Forall isByte out.
Proof.
  intros Hlen out. split.
  - rewrite pixel_count in *. unfold out, recolorLoop.
    destruct (recolor_prefix shadowRgb portraitData
                (Z.to_nat (shadowSize * shadowSize)) alloc) as (Hl & _); lia.
  - apply Forall_lookup. intros j x Hx. unfold out in Hx.
    rewrite recolorLoop_lookup in Hx by assumption.
    case_decide; [| discriminate]. injection Hx as <-.
    apply toUint8_is_byte.
Qed.

Lemma recolorLoop_bytes_witness :
  let out :=
    recolorLoop {| r := Js.NaN; g := Js.ofZ 300; b := Js.Finite (-3 # 2) |}
                2 [1000; -5] (replicate 16 7) in
  length out = Z.to_nat (2 * 2 * 4) /\ Forall isByte out.
Proof.
  apply (recolorLoop_bytes {| r := Js.NaN; g := Js.ofZ 300;
                              b := Js.Finite (-3 # 2) |}
           2 [1000; -5] (replicate 16 7)).
  reflexivity.
Defined.

(** X3: a pixel whose alpha byte lies past the end of the source data
    becomes fully transparent, still with the target colour. *)
Theorem recolorLoop_short_source (rv gv bv shadowSize : Z)
    (portraitData alloc : list Z) (i : nat) :
  isByte rv -> isByte gv -> isByte bv ->
  length alloc = Z.to_nat (shadowSize * shadowSize * 4) ->
  (i < Z.to_nat (shadowSize * shadowSize))%nat ->
  (length portraitData <= i * 4 + 3)%nat ->
  let out :=
    recolorLoop {| r := Js.ofZ rv; g := Js.ofZ gv; b := Js.ofZ bv |}
                shadowSize portraitData alloc in
  channel out i 0 = Some rv /\ channel out i 1 = Some gv /\
  channel out i 2 = Some bv /\ channel out i 3 = Some 0.
Proof.
  intros Hr Hg Hb Hlen Hi Hshort out. unfold out, channel.
  rewrite !recolorLoop_lookup by assumption.
  rewrite pixel_count in Hlen.
  repeat (case_decide; [| lia]). unfold storedAt.
  replace ((i * 4 + 0) mod 4)%nat with 0%nat
    by (rewrite Nat.add_comm, Nat.Div0.mod_add; reflexivity).
  replace ((i * 4 + 1) mod 4)%nat with 1%nat
    by (rewrite Nat.add_comm, Nat.Div0.mod_add; reflexivity).
  replace ((i * 4 + 2) mod 4)%nat with 2%nat
    by (rewrite Nat.add_comm, Nat.Div0.mod_add; reflexivity).
  replace ((i * 4 + 3) mod 4)%nat with 3%nat
    by (rewrite Nat.add_comm, Nat.Div0.mod_add; reflexivity).
  cbn [r g b]. rewrite !toUint8_byte by assumption.
  unfold load. rewrite (lookup_ge_None_2 portraitData) by lia.
  repeat split; reflexivity.
Qed.

Lemma recolorLoop_short_source_witness :
  let out :=
    recolorLoop {| r := Js.ofZ 30; g := Js.ofZ 42; b := Js.ofZ 69 |}
                2 [10; 11; 12; 13] (replicate 16 7) in
  channel out 1 0 = Some 30 /\ channel out 1 1 = Some 42 /\
  channel out 1 2 = Some 69 /\ channel out 1 3 = Some 0.
Proof.
  apply (recolorLoop_short_source 30 42 69 2 [10; 11; 12; 13] (replicate 16 7) 1);
    unfold isByte; cbn; lia.
Defined.

(** ** Clipping: the extracted region and the visible part *)

(** X4: a pixel (c, row) of the silhouette lies on the canvas exactly
    when it lies in the crop rectangle, and the cropped layer puts it back
    at the canvas position it had before cropping. *)
Theorem crop_is_visible_part (size shadowSize : Z) (offset : Offset) (c row : Z) :
  let p := placeShadow size shadowSize offset in
  ((0 <= c < shadowSize /\ 0 <= shadowX p + c < size) <->
   cropLeft (crop p) <= c < cropRight (crop p)) /\
  ((0 <= row < shadowSize /\ 0 <= shadowY p + row < size) <->
   cropTop (crop p) <= row < cropBottom (crop p)) /\
  finalShadowX p + (c - cropLeft (crop p)) = shadowX p + c /\
  finalShadowY p + (row - cropTop (crop p)) = shadowY p + row.
Proof. unfold_placement. lia. Qed.

(** X5: when the visible width and height are positive, the region
    handed to [extract] lies inside the silhouette raster. *)
Theorem extract_region_in_bounds (size shadowSize x y : Z) :
  let c := cropToCanvas size shadowSize x y in
  0 < cropWidth c -> 0 < cropHeight c ->
  0 <= cropLeft c /\ cropLeft c + cropWidth c <= shadowSize /\
  0 <= cropTop c /\ cropTop c + cropHeight c <= shadowSize.
Proof. unfold cropToCanvas; cbn. lia. Qed.

Lemma extract_region_in_bounds_witness :
  let c := cropToCanvas 512 614 (-71) (-71) in
  0 <= cropLeft c /\ cropLeft c + cropWidth c <= 614 /\
  0 <= cropTop c /\ cropTop c + cropHeight c <= 614.
Proof.
  apply (extract_region_in_bounds 512 614 (-71) (-71)); vm_compute; reflexivity.
Defined.

(** The geometry of the silhouette that is at least as large as the canvas
    and shifted up and left. *)
Lemma planShadow_oversized (cfg : AvatarConfig) (size : Z) :
  1 <= size ->
  (1 <= shadowSizeMultiplier cfg)%Q ->
  0 <= shadowOffsetMagnitude (shadowOffset cfg) size ->
  let shadowSize := shadowSizeOf (shadowSizeMultiplier cfg) size in
  let offset := shadowOffsetMagnitude (shadowOffset cfg) size in
  let p := planShadow cfg size in
  size <= shadowSize /\
  finalShadowX p = 0 /\ finalShadowY p = 0 /\
  cropWidth (crop p) = Z.min size ((size + shadowSize) / 2 - offset) /\
  cropHeight (crop p) = Z.min size ((size + shadowSize) / 2 - offset).
Proof.
  intros Hsize Hm Hoff shadowSize offset p.
  destruct (shadowSizeOf_ge (shadowSizeMultiplier cfg) size Hm Hsize) as [HS _].
  fold shadowSize in HS. fold offset in Hoff.
  subst p. unfold_placement. fold shadowSize offset.
  pose proof (Z.div_mod (size - shadowSize) 2 ltac:(lia)).
  pose proof (Z.mod_pos_bound (size - shadowSize) 2 ltac:(lia)).
  pose proof (Z.div_mod (size + shadowSize) 2 ltac:(lia)).
  pose proof (Z.mod_pos_bound (size + shadowSize) 2 ltac:(lia)).
  lia.
Qed.

(** X6: with a size multiplier of at least 1 and an offset that is not
    negative, the cropped silhouette is composited at the origin of the
    canvas, and it covers the whole canvas exactly when the offset is at
    most floor((S - C) / 2). *)
Theorem silhouette_covers_canvas (cfg : AvatarConfig) (size : Z) :
  1 <= size ->
  (1 <= shadowSizeMultiplier cfg)%Q ->
  0 <= shadowOffsetMagnitude (shadowOffset cfg) size ->
  let shadowSize := shadowSizeOf (shadowSizeMultiplier cfg) size in
  let offset := shadowOffsetMagnitude (shadowOffset cfg) size in
  let p := planShadow cfg size in
  (finalShadowX p, finalShadowY p) = (0, 0) /\
  (cropWidth (crop p) = size /\ cropHeight (crop p) = size <->
   offset <= (shadowSize - size) / 2).
Proof.
  intros Hsize Hm Hoff shadowSize offset p.
  destruct (planShadow_oversized cfg size Hsize Hm Hoff)
    as (HS & Hx & Hy & Hw & Hh).
  fold shadowSize offset p in HS, Hx, Hy, Hw, Hh.
  rewrite Hx, Hy, Hw, Hh. split; [reflexivity |].
  pose proof (Z.div_mod (shadowSize - size) 2 ltac:(lia)).
  pose proof (Z.mod_pos_bound (shadowSize - size) 2 ltac:(lia)).
  pose proof (Z.div_mod (size + shadowSize) 2 ltac:(lia)).
  pose proof (Z.mod_pos_bound (size + shadowSize) 2 ltac:(lia)).
  lia.
Qed.

Lemma silhouette_covers_canvas_witness :
  let p := planShadow example_config 512 in
  (finalShadowX p, finalShadowY p) = (0, 0) /\
  (cropWidth (crop p) = 512 /\ cropHeight (crop p) = 512 <->
   shadowOffsetMagnitude (shadowOffset example_config) 512 <=
   (shadowSizeOf (shadowSizeMultiplier example_config) 512 - 512) / 2).
Proof.
  apply (silhouette_covers_canvas example_config 512); vm_compute; congruence.
Defined.

Lemma floor_scale_lt (m : Q) (n : Z) :
  (m < 1)%Q -> 1 <= n -> Js.floor (Js.scale n m) < n.
Proof.
  intros Hm Hn. unfold Js.floor, Js.scale.
  apply Z.lt_nge. intros Hge.
  assert (H : (inject_Z n <= inject_Z n * m)%Q).
  { eapply Qle_trans; [| apply Qfloor_le]. now rewrite <- Zle_Qle. }
  apply (Qlt_not_le (inject_Z n * m) (inject_Z n)); [| exact H].
  apply Qle_lt_trans with (inject_Z n * m + 0)%Q.
  - apply Qle_lteq. right. symmetry. apply Qplus_0_r.
  - apply Qlt_le_trans with (inject_Z n * m + inject_Z n * (1 - m))%Q.
    + apply Qplus_lt_r. apply Qmult_lt_0_compat.
      * change (inject_Z 0 < inject_Z n)%Q. rewrite <- Zlt_Qlt. lia.
      * unfold Qminus. apply (Qplus_lt_l _ _ m).
        apply Qle_lt_trans with m; [apply Qle_lteq; right; ring |].
        apply Qlt_le_trans with 1%Q; [exact Hm |].
        apply Qle_lteq. right. ring.
    + apply Qle_lteq. right. ring.
Qed.

(** X7: a configuration in which the band chosen for a canvas has
    a minimum offset in [0, size) and a multiplier in [0, 1), with a size
    multiplier above 1, always leaves a visible region of positive width
    and height. *)
Theorem visible_region_for_sane_band (cfg : AvatarConfig) (size : Z) :
  1 <= size ->
  (1 < shadowSizeMultiplier cfg)%Q ->
  let band := band_of (shadowOffset cfg) (selectBand (shadowOffset cfg) size) in
  0 <= minOffset band < size ->
  (0 <= offsetMultiplier band)%Q -> (offsetMultiplier band < 1)%Q ->
  let c := crop (planShadow cfg size) in
  0 < cropWidth c /\ 0 < cropHeight c.
Proof.
  intros Hsize Hm band Hmin Hlo Hhi c.
  pose proof (shadowOffsetMagnitude_band (shadowOffset cfg) size) as Hoff.
  fold band in Hoff.
  pose proof (floor_scale_lt _ size Hhi Hsize) as Hlt.
  assert (Hoff0 : 0 <= shadowOffsetMagnitude (shadowOffset cfg) size) by lia.
  destruct (planShadow_oversized cfg size Hsize (Qlt_le_weak _ _ Hm) Hoff0)
    as (HS & _ & _ & Hw & Hh).
  subst c. rewrite Hw, Hh.
  pose proof (Z.div_mod (size + shadowSizeOf (shadowSizeMultiplier cfg) size) 2
                ltac:(lia)).
  pose proof (Z.mod_pos_bound (size + shadowSizeOf (shadowSizeMultiplier cfg) size) 2
                ltac:(lia)).
  lia.
Qed.

Lemma visible_region_for_sane_band_witness :
  let c := crop (planShadow example_config 100) in
  0 < cropWidth c /\ 0 < cropHeight c.
Proof.
  apply (visible_region_for_sane_band example_config 100);
    repeat split; vm_compute; congruence.
Defined.

(** X8: the shadow size is at least 1 for every multiplier and
    target size, so the check [shadowSize <= 0] never fails: no run of
    [generateAvatar] ends in the invalid-shadow-size error. *)
Theorem shadow_size_check_never_fails (w : World)
    (portraitPath colorName outputPath : string) (size : Js.Number)
    (grayscale withShadow : bool) :
  (forall multiplier targetSize, 1 <= shadowSizeOf multiplier targetSize) /\
  neverThrows isInvalidShadowSize
    (generateAvatar w portraitPath colorName size outputPath
                    grayscale withShadow).
Proof.
  split; [intros; unfold shadowSizeOf; lia |].
  unfold generateAvatar. apply neverThrows_rethrow.
  apply neverThrows_bind; [| intros _].
  { apply neverThrows_when. intros _. now apply neverThrows_throw. }
  cbv zeta.
  destruct (brandColors w !! _) as [[| c hex] |];
    try now apply neverThrows_throw.
  apply neverThrows_bind; [| intros _].
  { apply neverThrows_when. intros _. now apply neverThrows_throw. }
  repeat (apply neverThrows_bind; [| intros ?]);
    auto using neverThrows_when with eff.
  destruct (hexToRgb _); [| now apply neverThrows_throw].
  repeat (apply neverThrows_bind; [| intros ?]);
    auto using neverThrows_when with eff.
  destruct withShadow; [| apply neverThrows_ret].
  unfold addShadowSilhouette. apply neverThrows_rethrow. cbv zeta.
  destruct (hexToRgb _); [| now apply neverThrows_throw].
  assert ((shadowSizeOf (shadowSizeMultiplier (config w)) (Js.toZ size) <=? 0) = false)
    as -> by (apply Z.leb_gt; unfold shadowSizeOf; lia).
  repeat (apply neverThrows_bind; [| intros ?]);
    auto using neverThrows_when with eff.
Qed.

(** ** Colour strings: case, the optional [#], and equality of colours *)

Lemma lowerChar_facts (c : ascii) :
  isHexChar (Js.lowerChar c) = isHexChar c /\
  Js.digitValue (Js.lowerChar c) = Js.digitValue c /\
  Ascii.eqb (Js.lowerChar c) "#" = Ascii.eqb c "#" /\
  Js.lowerChar (Js.lowerChar c) = Js.lowerChar c.
Proof. each_ascii c; vm_compute; repeat split; reflexivity. Qed.

Lemma hex_lower_digit (c : ascii) :
  isHexChar c = true ->
  exists d, Js.digitValue c = Some d /\ 0 <= d < 16 /\
            Js.lowerChar c = hexLowerOf d.
Proof.
  each_ascii c; intros H; try (vm_compute in H; discriminate H);
    eexists; (split; [vm_compute; reflexivity | split; [lia | reflexivity]]).
Qed.

Lemma hexChar_not_hash (c : ascii) : isHexChar c = true -> c <> "#"%char.
Proof. intros H ->. discriminate H. Qed.

Lemma parseDigits_lower (radix : Z) (s : string) (acc : Z) :
  Js.parseDigits radix acc (Js.toLowerCase s) = Js.parseDigits radix acc s.
Proof.
  revert acc. induction s as [| c s IH]; intros acc; [reflexivity |].
  cbn [Js.toLowerCase Js.parseDigits].
  destruct (lowerChar_facts c) as (_ & -> & _).
  destruct (Js.digitValue c) as [d |]; [| reflexivity].
  destruct (d <? radix); [apply IH | reflexivity].
Qed.

Lemma parseInt_lower (s : string) (radix : Z) :
  Js.parseInt (Js.toLowerCase s) radix = Js.parseInt s radix.
Proof.
  destruct s as [| c s]; [reflexivity |].
  unfold Js.parseInt. cbn [Js.toLowerCase].
  change (String (Js.lowerChar c) (Js.toLowerCase s))
    with (Js.toLowerCase (String c s)).
  rewrite parseDigits_lower.
  destruct (lowerChar_facts c) as (_ & -> & _). reflexivity.
Qed.

Lemma matchHexPair_lower (s : string) :
  matchHexPair (Js.toLowerCase s) =
  match matchHexPair s with
  | Some (grp, rest) => Some (Js.toLowerCase grp, Js.toLowerCase rest)
  | None => None
  end.
Proof.
  destruct s as [| c1 [| c2 rest]]; try reflexivity.
  cbn [Js.toLowerCase matchHexPair].
  destruct (lowerChar_facts c1) as (-> & _).
  destruct (lowerChar_facts c2) as (-> & _).
  destruct (isHexChar c1 && isHexChar c2); reflexivity.
Qed.

Lemma matchGroups_lower (s : string) :
  matchGroups (Js.toLowerCase s) = lowerGroups <$> matchGroups s.
Proof.
  unfold matchGroups. rewrite matchHexPair_lower.
  destruct (matchHexPair s) as [[g1 s1] |]; [| reflexivity].
  rewrite matchHexPair_lower.
  destruct (matchHexPair s1) as [[g2 s2] |]; [| reflexivity].
  rewrite matchHexPair_lower.
  destruct (matchHexPair s2) as [[g3 [| c s3]] |]; reflexivity.
Qed.

Lemma hexPatternExec_hash (rest : string) :
  hexPatternExec (String "#" rest) = matchGroups rest.
Proof.
  change (hexPatternExec (String "#" rest))
    with (match matchGroups rest with
          | Some groups => Some groups
          | None => matchGroups (String "#" rest)
          end).
  destruct (matchGroups rest); [reflexivity | apply matchGroups_hash].
Qed.

Lemma hexPatternExec_body (hex : string) :
  hexPatternExec hex = matchGroups (hexBody hex).
Proof.
  destruct hex as [| c rest]; [reflexivity |].
  destruct (Ascii.ascii_dec c "#") as [-> | Hc].
  - apply hexPatternExec_hash.
  - destruct (hexPatternExec_other c rest Hc) as [-> _].
    f_equal. unfold hexBody.
    each_ascii c; first [reflexivity | exfalso; apply Hc; reflexivity].
Qed.

Lemma hexBody_lower (hex : string) :
  hexBody (Js.toLowerCase hex) = Js.toLowerCase (hexBody hex).
Proof.
  destruct hex as [| c rest]; [reflexivity |].
  each_ascii c; reflexivity.
Qed.

Lemma hexToRgb_lower (hex : string) :
  hexToRgb (Js.toLowerCase hex) = hexToRgb hex.
Proof.
  unfold hexToRgb. rewrite !hexPatternExec_body, hexBody_lower, matchGroups_lower.
  destruct (matchGroups (hexBody hex)) as [[[g1 g2] g3] |]; [| reflexivity].
  cbn. now rewrite !parseInt_lower.
Qed.

(** X9: the result of [hexToRgb], a colour or null, does not depend
    on the case of the letters of the string. *)
Theorem hexToRgb_case_insensitive (hex : string) :
  hexToRgb (Js.toLowerCase hex) = hexToRgb hex.
Proof. exact (hexToRgb_lower hex). Qed.

(** X10: a leading [#] is optional: for six hexadecimal digits the
    string with and without it denote the same colour, while a second [#]
    makes the string invalid. *)
Theorem hexToRgb_hash_optional (digits : string) :
  sixHexDigits digits = true ->
  hexToRgb (String "#" digits) = hexToRgb digits /\
  hexToRgb digits <> None /\
  hexToRgb (String "#" (String "#" digits)) = None.
Proof.
  intros Hsix. pose proof (matchGroups_six digits) as H. rewrite Hsix in H.
  destruct H as (c1 & c2 & c3 & c4 & c5 & c6 & -> & H1 & _ & _ & _ & _ & _ & Hm).
  unfold hexToRgb. rewrite !hexPatternExec_body.
  assert (Hb : hexBody (String c1 (String c2 (String c3 (String c4 (String c5
                 (String c6 EmptyString)))))) =
               String c1 (String c2 (String c3 (String c4 (String c5
                 (String c6 EmptyString)))))).
  { pose proof (hexChar_not_hash c1 H1) as Hc. unfold hexBody.
    each_ascii c1; first [reflexivity | exfalso; apply Hc; reflexivity]. }
  rewrite Hb. cbn [hexBody]. rewrite Hm.
  split; [reflexivity |]. split; [discriminate |].
  destruct (matchGroups_hash (String c1 (String c2 (String c3 (String c4
              (String c5 (String c6 EmptyString))))))) as [-> _].
  reflexivity.
Qed.

Lemma hexToRgb_hash_optional_witness :
  hexToRgb "#1E2A45" = hexToRgb "1E2A45" /\
  hexToRgb "1E2A45" <> None /\
  hexToRgb "##1E2A45" = None.
Proof. apply (hexToRgb_hash_optional "1E2A45"). reflexivity. Defined.

Lemma parseInt_pair_value (c1 c2 : ascii) (d1 d2 : Z) :
  Js.digitValue c1 = Some d1 -> 0 <= d1 < 16 ->
  Js.digitValue c2 = Some d2 -> 0 <= d2 < 16 ->
  Js.parseInt (String c1 (String c2 EmptyString)) 16 = Js.ofZ (16 * d1 + d2).
Proof.
  intros E1 B1 E2 B2. unfold Js.parseInt, Js.parseDigits. rewrite E1, E2.
  assert ((d1 <? 16) = true) as -> by (apply Z.ltb_lt; lia).
  assert ((d2 <? 16) = true) as -> by (apply Z.ltb_lt; lia).
  f_equal. lia.
Qed.

Lemma ofZ_inj (v1 v2 : Z) : Js.ofZ v1 = Js.ofZ v2 -> v1 = v2.
Proof. unfold Js.ofZ, inject_Z. now intros [=]. Qed.

Lemma parseInt_pair_inj (c1 c2 c1' c2' : ascii) :
  isHexChar c1 = true -> isHexChar c2 = true ->
  isHexChar c1' = true -> isHexChar c2' = true ->
  Js.parseInt (String c1 (String c2 EmptyString)) 16 =
  Js.parseInt (String c1' (String c2' EmptyString)) 16 ->
  Js.lowerChar c1 = Js.lowerChar c1' /\ Js.lowerChar c2 = Js.lowerChar c2'.
Proof.
  intros H1 H2 H1' H2' Heq.
  destruct (hex_lower_digit c1 H1) as (d1 & E1 & B1 & ->).
  destruct (hex_lower_digit c2 H2) as (d2 & E2 & B2 & ->).
  destruct (hex_lower_digit c1' H1') as (d1' & E1' & B1' & ->).
  destruct (hex_lower_digit c2' H2') as (d2' & E2' & B2' & ->).
  rewrite (parseInt_pair_value c1 c2 d1 d2), (parseInt_pair_value c1' c2' d1' d2')
    in Heq by assumption.
  apply ofZ_inj in Heq.
  assert (d1 = d1' /\ d2 = d2') as [-> ->] by lia. split; reflexivity.
Qed.

(** The digits and the channels of a valid colour string. *)
Lemma hexToRgb_digits (hex : string) :
  isHexColor hex = true ->
  exists c1 c2 c3 c4 c5 c6,
    hexBody hex = String c1 (String c2 (String c3 (String c4 (String c5
                    (String c6 EmptyString))))) /\
    isHexChar c1 = true /\ isHexChar c2 = true /\ isHexChar c3 = true /\
    isHexChar c4 = true /\ isHexChar c5 = true /\ isHexChar c6 = true /\
    hexToRgb hex =
      Some {| r := Js.parseInt (String c1 (String c2 EmptyString)) 16;
              g := Js.parseInt (String c3 (String c4 EmptyString)) 16;
              b := Js.parseInt (String c5 (String c6 EmptyString)) 16 |}.
Proof.
  intros Hvalid. pose proof (hexPatternExec_six hex) as Hexec.
  rewrite Hvalid in Hexec. destruct Hexec as (a1 & a2 & a3 & a4 & a5 & a6 & Hexec).
  pose proof (matchGroups_six (hexBody hex)) as H.
  unfold hexToRgb. rewrite hexPatternExec_body in *.
  destruct (sixHexDigits (hexBody hex)).
  - destruct H as (c1 & c2 & c3 & c4 & c5 & c6 & Hb & H1 & H2 & H3 & H4 & H5 & H6 & Hm).
    exists c1, c2, c3, c4, c5, c6. rewrite Hm. repeat split; assumption.
  - rewrite H in Hexec. destruct Hexec as (_ & _ & _ & _ & _ & _ & [=]).
Qed.

(** X11: two valid colour strings denote the same colour exactly when
    their digits agree up to the case of the letters. *)
Theorem hexToRgb_same_colour (hex1 hex2 : string) :
  isHexColor hex1 = true -> isHexColor hex2 = true ->
  (hexToRgb hex1 = hexToRgb hex2 <->
   Js.toLowerCase (hexBody hex1) = Js.toLowerCase (hexBody hex2)).
Proof.
  intros V1 V2. split.
  - destruct (hexToRgb_digits hex1 V1)
      as (c1 & c2 & c3 & c4 & c5 & c6 & -> & H1 & H2 & H3 & H4 & H5 & H6 & ->).
    destruct (hexToRgb_digits hex2 V2)
      as (e1 & e2 & e3 & e4 & e5 & e6 & -> & K1 & K2 & K3 & K4 & K5 & K6 & ->).
    intros [= Hr Hg Hb]. cbn [Js.toLowerCase].
    apply parseInt_pair_inj in Hr as [-> ->]; try assumption.
    apply parseInt_pair_inj in Hg as [-> ->]; try assumption.
    apply parseInt_pair_inj in Hb as [-> ->]; try assumption.
    reflexivity.
  - intros Heq.
    rewrite <- (hexToRgb_lower hex1), <- (hexToRgb_lower hex2).
    unfold hexToRgb. rewrite !hexPatternExec_body, !hexBody_lower, Heq.
    reflexivity.
Qed.

Lemma hexToRgb_same_colour_witness :
  hexToRgb "#ff008f" = hexToRgb "FF008F".
Proof.
  apply (hexToRgb_same_colour "#ff008f" "FF008F"); reflexivity.
Defined.

(** ** Normalised colours *)

Lemma isUnitChannel_divide (n : Js.Number) :
  isChannel n -> isUnitChannel (divideBy255 n).
Proof.
  intros (v & -> & Hv). exists v. split; [exact Hv |]. split; [reflexivity |].
  unfold Qdiv, Qmult, Qinv, Qle, inject_Z. cbn. lia.
Qed.

(** X12: [hexToRgbNormalized] returns null exactly when [hexToRgb]
    does; otherwise each channel is the quotient by 255 of the channel of
    [hexToRgb], a number between 0 and 1. *)
Theorem hexToRgbNormalized_unit_range (hex : string) :
  match hexToRgb hex, hexToRgbNormalized hex with
  | Some rgb, Some normalized =>
      isHexColor hex = true /\
      normalized = {| r := divideBy255 (r rgb); g := divideBy255 (g rgb);
                      b := divideBy255 (b rgb) |} /\
      isUnitChannel (r normalized) /\ isUnitChannel (g normalized) /\
      isUnitChannel (b normalized)
  | None, None => isHexColor hex = false
  | _, _ => False
  end.
Proof.
  unfold hexToRgbNormalized.
  destruct (isHexColor hex) eqn:Hvalid.
  - destruct (hexToRgb_digits hex Hvalid)
      as (c1 & c2 & c3 & c4 & c5 & c6 & _ & H1 & H2 & H3 & H4 & H5 & H6 & ->).
    cbn [r g b]. split; [reflexivity |]. split; [reflexivity |].
    repeat split; apply isUnitChannel_divide; now apply parseInt_hex_pair.
  - pose proof (hexPatternExec_six hex) as H. rewrite Hvalid in H.
    unfold hexToRgb. now rewrite H.
Qed.

Example hexToRgbNormalized_white :
  hexToRgbNormalized "#FFFFFF" =
  Some {| r := Js.Finite (255 / 255); g := Js.Finite (255 / 255);
          b := Js.Finite (255 / 255) |}.
Proof. reflexivity. Qed.

(** ** Rules for the specification of effectful code *)

Section Logs.

Context {E X : Type}.

Lemma logs_ret {A} (a : A) (post : X + A -> list E -> Prop) :
  post (inr a) [] -> logs (eff_ret a) post.
Proof. intros H log. exists (inr a), []. now rewrite app_nil_r. Qed.

Lemma logs_emit (e : E) (post : X + unit -> list E -> Prop) :
  post (inr tt) [e] -> logs (emit e) post.
Proof. intros H log. now exists (inr tt), [e]. Qed.

Lemma logs_throw {A} (x : X) (post : X + A -> list E -> Prop) :
  post (inl x) [] -> logs (throw x) post.
Proof. intros H log. exists (inl x), []. now rewrite app_nil_r. Qed.

Lemma logs_bind {A B} (m : Eff E X A) (k : A -> Eff E X B)
    (post : X + B -> list E -> Prop) :
  logs m (fun res new =>
            match res with
            | inl x => post (inl x) new
            | inr a => logs (k a) (fun res' new' => post res' (new ++ new'))
            end) ->
  logs (eff_bind m k) post.
Proof.
  intros H log. destruct (H log) as (res & new & Hm & Hpost).
  unfold eff_bind. rewrite Hm. destruct res as [x | a].
  - now exists (inl x), new.
  - destruct (Hpost (log ++ new)) as (res' & new' & Hk & Hpost').
    exists res', (new ++ new'). now rewrite app_assoc.
Qed.

Lemma logs_tryCatch {A} (body : Eff E X A) (handler : X -> Eff E X A)
    (post : X + A -> list E -> Prop) :
  logs body (fun res new =>
               match res with
               | inl x => logs (handler x)
                               (fun res' new' => post res' (new ++ new'))
               | inr a => post (inr a) new
               end) ->
  logs (tryCatch body handler) post.
Proof.
  intros H log. destruct (H log) as (res & new & Hm & Hpost).
  unfold tryCatch. rewrite Hm. destruct res as [x | a].
  - destruct (Hpost (log ++ new)) as (res' & new' & Hk & Hpost').
    exists res', (new ++ new'). now rewrite app_assoc.
  - now exists (inr a), new.
Qed.

Lemma logs_when (c : bool) (m : Eff E X unit)
    (post : X + unit -> list E -> Prop) :
  (if c then logs m post else post (inr tt) []) -> logs (when c m) post.
Proof. destruct c; [trivial | apply logs_ret]. Qed.

Lemma logs_run {A} (m : Eff E X A) (post : X + A -> list E -> Prop) :
  logs m post -> post (fst (run m)) (snd (run m)).
Proof.
  intros H. destruct (H []) as (res & new & Hm & Hpost).
  unfold run. now rewrite Hm.
Qed.

End Logs.

Ltac logs_step :=
  lazymatch goal with
  | |- logs (eff_bind _ _) _ => apply logs_bind
  | |- logs (eff_ret _) _ => apply logs_ret
  | |- logs (emit _) _ => apply logs_emit
  | |- logs (throw _) _ => apply logs_throw
  | |- logs (tryCatch _ _) _ => apply logs_tryCatch
  | |- logs (when ?c _) _ => apply logs_when; destruct c eqn:?
  | |- logs (if ?c then _ else _) _ => destruct c eqn:?
  | |- logs (match ?x with _ => _ end) _ => destruct x eqn:?
  end; cbv beta iota zeta.

Ltac logs_auto := repeat logs_step.

(** ** Runs of [generateAvatar] *)


(** ** The runs of [generateAvatar]: the order of the checks, the layers *)

Ltac eff_unfold :=
  unfold run, tryCatch, eff_bind, when, throw, emit, eff_ret.

(** A missing portrait, and after it an unknown colour name (or one whose
    hex value is the empty string), end the run with nothing done but the
    error logged, whatever the other arguments are. *)
Lemma generateAvatar_early_validation (w : World)
    (portraitPath colorName : string) (size : Js.Number) (outputPath : string)
    (grayscale withShadow : bool) :
  let result :=
    run (generateAvatar w portraitPath colorName size outputPath
                        grayscale withShadow) in
  (existsSync w portraitPath = false ->
   result = (inl (PortraitNotFound portraitPath),
             [LogError (PortraitNotFound portraitPath)])) /\
  (existsSync w portraitPath = true ->
   brandColors w !! Js.toLowerCase colorName = None \/
   brandColors w !! Js.toLowerCase colorName = Some EmptyString ->
   result = (inl (InvalidColor colorName), [LogError (InvalidColor colorName)])).
Proof.
  cbv zeta. unfold run, generateAvatar. eff_unfold. split.
  - intros ->. reflexivity.
  - intros -> [-> | ->]; reflexivity.
Qed.

(** A colour whose hex value does not parse is detected only after the
    output directory has been created and the portrait measured and
    resized. *)
Lemma generateAvatar_invalid_hex_late (w : World)
    (portraitPath colorName colorHex : string) (n : Z) (outputPath : string)
    (grayscale withShadow : bool) :
  existsSync w portraitPath = true ->
  brandColors w !! Js.toLowerCase colorName = Some colorHex ->
  colorHex <> EmptyString ->
  hexToRgb colorHex = None ->
  1 <= n ->
  run (generateAvatar w portraitPath colorName (Js.ofZ n) outputPath
                      grayscale withShadow) =
  (inl (InvalidColorHex colorHex),
   preparation w portraitPath outputPath n grayscale
   ++ [LogError (InvalidColorHex colorHex)]).
Proof.
  intros Hp Hc Hne Hhex Hn.
  unfold run, generateAvatar. eff_unfold.
  rewrite Hp, Hc, (positive_integer_passes n Hn).
  destruct colorHex as [| c hex]; [congruence |].
  rewrite Hhex. unfold Js.toZ, Js.ofZ. rewrite Qfloor_Z. unfold preparation.
  destruct (existsSync w (dirname w outputPath)); reflexivity.
Qed.

(** X14: the checks of [generateAvatar] come in the order
    portrait, colour name, size, colour value.  A missing portrait, then
    a colour name that the brand colours do not have and no object
    inherits (or one with an empty hex value), end the run with nothing
    done but the error logged, whatever the other arguments are;
    a colour whose hex value does not parse is detected only after the
    output directory has been created and the portrait measured and
    resized, before any canvas is built. *)
Theorem generateAvatar_validation_order (w : World)
    (portraitPath colorName : string) (size : Js.Number) (outputPath : string)
    (grayscale withShadow : bool) :
  let result :=
    run (generateAvatar w portraitPath colorName size outputPath
                        grayscale withShadow) in
  (existsSync w portraitPath = false ->
   result = (inl (PortraitNotFound portraitPath),
             [LogError (PortraitNotFound portraitPath)])) /\
  (existsSync w portraitPath = true ->
   inheritedKey (Js.toLowerCase colorName) = false ->
   brandColors w !! Js.toLowerCase colorName = None \/
   brandColors w !! Js.toLowerCase colorName = Some EmptyString ->
   result = (inl (InvalidColor colorName), [LogError (InvalidColor colorName)])) /\
  (forall colorHex n,
     existsSync w portraitPath = true ->
     brandColors w !! Js.toLowerCase colorName = Some colorHex ->
     colorHex <> EmptyString ->
     hexToRgb colorHex = None ->
     1 <= n -> size = Js.ofZ n ->
     result =
       (inl (InvalidColorHex colorHex),
        preparation w portraitPath outputPath n grayscale
        ++ [LogError (InvalidColorHex colorHex)])).
Proof.
  cbv zeta.
  destruct (generateAvatar_early_validation w portraitPath colorName size
              outputPath grayscale withShadow) as [Hportrait Hcolor].
  split; [exact Hportrait |].
  split; [intros Hp _ Hmiss; exact (Hcolor Hp Hmiss) |].
  intros colorHex n Hp Hc Hne Hhex Hn ->.
  now apply generateAvatar_invalid_hex_late.
Qed.

Lemma generateAvatar_validation_order_witness :
  run (generateAvatar example_small_world "portrait.png" "Broken" (Js.ofZ 16)
                      "out/a.png" true true) =
  (inl (InvalidColorHex "#12345"),
   [MkDir "out"; LogInfo; ReadMetadata "portrait.png"; ResizePortrait 16 true;
    LogError (InvalidColorHex "#12345")]).
Proof.
  destruct (generateAvatar_validation_order example_small_world "portrait.png"
              "Broken" (Js.ofZ 16) "out/a.png" true true) as (_ & _ & Hhex).
  apply (Hhex "#12345" 16);
    first [ vm_compute; reflexivity | discriminate | lia ].
Defined.

(** X15: when the shadow colour chosen for the background has no
    parsable hex value among the brand colours, the run fails after the
    background canvas has been created; the error is logged twice (by the
    handler of the shadow block and by the handler of the function) and
    nothing is written.  The names looked up are not inherited ones. *)
Theorem generateAvatar_shadow_colour_unresolved (w : World)
    (portraitPath colorName colorHex : string) (rgb : RGB) (n : Z)
    (outputPath : string) (grayscale : bool) :
  existsSync w portraitPath = true ->
  brandColors w !! Js.toLowerCase colorName = Some colorHex ->
  hexToRgb colorHex = Some rgb ->
  1 <= n ->
  inheritedKey (Js.toLowerCase colorName) = false ->
  inheritedKey (getShadowColor (shadowColorMap (config w)) colorName) = false ->
  let shadowColorHex :=
    brandColors w !! getShadowColor (shadowColorMap (config w)) colorName in
  hexToRgb (default "undefined" shadowColorHex) = None ->
  run (generateAvatar w portraitPath colorName (Js.ofZ n) outputPath
                      grayscale true) =
  (inl (ShadowColorParseFailure shadowColorHex),
   preparation w portraitPath outputPath n grayscale
   ++ [CreateCanvas n n rgb 1;
       LogError (ShadowColorParseFailure shadowColorHex);
       LogError (ShadowColorParseFailure shadowColorHex)]).
Proof.
  intros Hp Hc Hhex Hn _ _ shadowColorHex Hshadow.
  unfold run, generateAvatar, addShadowSilhouette. eff_unfold.
  rewrite Hp, Hc, (positive_integer_passes n Hn).
  destruct colorHex as [| c hex]; [discriminate Hhex |].
  rewrite Hhex. fold shadowColorHex. rewrite Hshadow.
  unfold Js.toZ, Js.ofZ. rewrite Qfloor_Z. unfold preparation.
  destruct (existsSync w (dirname w outputPath)); reflexivity.
Qed.

Lemma generateAvatar_shadow_colour_unresolved_witness :
  run (generateAvatar example_small_world "portrait.png" "navy" (Js.ofZ 16)
                      "out/a.png" false true) =
  (inl (ShadowColorParseFailure None),
   [MkDir "out"; LogInfo; ReadMetadata "portrait.png"; ResizePortrait 16 false;
    CreateCanvas 16 16 {| r := Js.ofZ 30; g := Js.ofZ 42; b := Js.ofZ 69 |} 1;
    LogError (ShadowColorParseFailure None);
    LogError (ShadowColorParseFailure None)]).
Proof.
  apply (generateAvatar_shadow_colour_unresolved example_small_world
           "portrait.png" "navy" "#1E2A45"
           {| r := Js.ofZ 30; g := Js.ofZ 42; b := Js.ofZ 69 |} 16
           "out/a.png" false);
    first [ vm_compute; reflexivity | lia ].
Defined.

(** X16: in a successful run the portrait is composited last, at the
    origin of the canvas, above the silhouette layer when there is one;
    the cropped silhouette was composited before, at the clamped position
    of the placement. *)
Theorem generateAvatar_layers (w : World)
    (portraitPath colorName : string) (size : Js.Number) (outputPath : string)
    (grayscale withShadow : bool) :
  let result :=
    run (generateAvatar w portraitPath colorName size outputPath
                        grayscale withShadow) in
  let p := planShadow (config w) (Js.toZ size) in
  fst result = inr tt ->
  List.filter isComposite (snd result) =
    if withShadow
    then [Composite [mkLayer CroppedShadow (finalShadowX p) (finalShadowY p)];
          Composite [mkLayer ShadowSilhouette 0 0; mkLayer ResizedPortrait 0 0]]
    else [Composite [mkLayer ResizedPortrait 0 0]].
Proof.
  cbv zeta.
  apply (logs_run _ (fun res new =>
    res = inr tt ->
    List.filter isComposite new =
      if withShadow
      then [Composite [mkLayer CroppedShadow
                         (finalShadowX (planShadow (config w) (Js.toZ size)))
                         (finalShadowY (planShadow (config w) (Js.toZ size)))];
            Composite [mkLayer ShadowSilhouette 0 0; mkLayer ResizedPortrait 0 0]]
      else [Composite [mkLayer ResizedPortrait 0 0]])).
  unfold generateAvatar, addShadowSilhouette.
  logs_auto; try discriminate; intros _; cbn;
    rewrite ?floor_half_div, ?Z.sub_diag; reflexivity.
Qed.

Lemma generateAvatar_layers_witness :
  List.filter isComposite
    (snd (run (generateAvatar example_small_world "portrait.png" "AQUA"
                              (Js.ofZ 16) "out/a.png" false true))) =
  [Composite [mkLayer CroppedShadow 0 0];
   Composite [mkLayer ShadowSilhouette 0 0; mkLayer ResizedPortrait 0 0]].
Proof.
  apply (generateAvatar_layers example_small_world "portrait.png" "AQUA"
           (Js.ofZ 16) "out/a.png" false true).
  vm_compute. reflexivity.
Defined.

(** ** LinkedIn images: dimensions, format, logo *)

Lemma LINKEDIN_SPECS_cases (type : string) (spec : LinkedInSpec) :
  LINKEDIN_SPECS !! type = Some spec ->
  (type, spec) ∈
    [("logo", mkLinkedInSpec (mkDimensions 268 268) (mkDimensions 400 400));
     ("title", mkLinkedInSpec (mkDimensions 4200 700) (mkDimensions 4200 700));
     ("culture-main",
       mkLinkedInSpec (mkDimensions 1128 376) (mkDimensions 1128 376));
     ("culture-module",
       mkLinkedInSpec (mkDimensions 502 282) (mkDimensions 502 282));
     ("photo", mkLinkedInSpec (mkDimensions 264 176) (mkDimensions 900 600));
     ("post", mkLinkedInSpec (mkDimensions 200 105) (mkDimensions 1200 627))].
Proof.
  unfold LINKEDIN_SPECS. intros H.
  repeat (apply lookup_insert_Some in H as [[<- <-] | [_ H]];
          [set_solver |]).
  apply lookup_singleton_Some in H as [<- <-]. set_solver.
Qed.

Lemma inheritedKey_not_spec (type : string) :
  inheritedKey type = true -> LINKEDIN_SPECS !! type = None.
Proof.
  unfold inheritedKey, objectPrototypeKeys. rewrite existsb_exists.
  intros (name & Hin & Heq). apply String.eqb_eq in Heq as <-.
  cbn in Hin.
  repeat (destruct Hin as [<- | Hin]; [vm_compute; reflexivity |]).
  destruct Hin.
Qed.

Ltac plan_cases colors color :=
  destruct (colors !! Js.toLowerCase color) as [[| c hex] |];
  [| | destruct (inheritedKey (Js.toLowerCase color))].

(** X17: the type is checked first and exactly (the six names of
    the table, in lower case), then the colour.  The start of
    [generateLinkedInImage] fails with the invalid-type error exactly when
    the type is neither in the table nor a name that every object
    inherits; such an inherited name passes the check and fails with the
    TypeError of the dimensions; the invalid-colour error comes exactly
    when the type is in the table and the colour has an empty hex value or
    is neither a brand colour nor an inherited name. *)
Theorem planLinkedInImage_errors (colors : gmap string string)
    (type color : string) (format : option string) (useRecommended : bool) :
  let result := planLinkedInImage colors type color format useRecommended in
  (result = inl (InvalidType type) <->
   LINKEDIN_SPECS !! type = None /\ inheritedKey type = false) /\
  (result = inl DimensionsOfUndefined <-> inheritedKey type = true) /\
  (result = inl (InvalidLinkedInColor color) <->
   is_Some (LINKEDIN_SPECS !! type) /\
   (colors !! Js.toLowerCase color = Some EmptyString \/
    (colors !! Js.toLowerCase color = None /\
     inheritedKey (Js.toLowerCase color) = false))) /\
  (is_Some (LINKEDIN_SPECS !! type) <->
   type ∈ ["logo"; "title"; "culture-main"; "culture-module"; "photo"; "post"]).
Proof.
  cbv zeta. unfold planLinkedInImage. split; [| split; [| split]].
  - destruct (LINKEDIN_SPECS !! type).
    + plan_cases colors color; split; try discriminate; intros [[=] _].
    + destruct (inheritedKey type); split; try discriminate; try tauto.
      intros [_ [=]].
  - pose proof (inheritedKey_not_spec type) as Hinh.
    destruct (LINKEDIN_SPECS !! type).
    + plan_cases colors color; split; try discriminate;
        intros H; specialize (Hinh H); discriminate Hinh.
    + destruct (inheritedKey type); split; try discriminate; reflexivity.
  - destruct (LINKEDIN_SPECS !! type) as [spec |].
    + destruct (colors !! Js.toLowerCase color) as [[| c hex] |];
        [| | destruct (inheritedKey (Js.toLowerCase color))];
        split; eauto; try discriminate.
      * intros (_ & [[=] | [[=] _]]).
      * intros (_ & [[=] | [_ [=]]]).
    + destruct (inheritedKey type); (split; [discriminate | intros ([? [=]] & _)]).
  - split.
    + intros [spec H]. apply LINKEDIN_SPECS_cases in H.
      rewrite !elem_of_cons in H. rewrite !elem_of_cons.
      destruct H as [[= -> _] | [[= -> _] | [[= -> _] | [[= -> _] |
                    [[= -> _] | [[= -> _] | H]]]]]]; [tauto .. |].
      now apply not_elem_of_nil in H.
    + rewrite !elem_of_cons.
      intros [-> | [-> | [-> | [-> | [-> | [-> | H]]]]]];
        [vm_compute; eauto .. |].
      now apply not_elem_of_nil in H.
Qed.

Example planLinkedInImage_inherited_type :
  planLinkedInImage {[ "navy" := "#1E2A45" ]} "constructor" "navy" None true =
  inl DimensionsOfUndefined.
Proof. vm_compute. reflexivity. Qed.

Example planLinkedInImage_type_case_sensitive :
  planLinkedInImage {[ "navy" := "#1E2A45" ]} "Logo" "navy" None true =
  inl (InvalidType "Logo").
Proof. vm_compute. reflexivity. Qed.

(** What a plan holds, read back from the request. *)
Lemma planLinkedInImage_inr (colors : gmap string string)
    (type color : string) (format : option string) (useRecommended : bool)
    (plan : LinkedInPlan) :
  planLinkedInImage colors type color format useRecommended = inr plan ->
  exists spec,
    LINKEDIN_SPECS !! type = Some spec /\
    plan_width plan =
      dim_width (if useRecommended then spec_recommended spec else spec_min spec) /\
    plan_height plan =
      dim_height (if useRecommended then spec_recommended spec else spec_min spec) /\
    plan_outputFormat plan =
      match format with
      | None | Some EmptyString => if String.eqb type "logo" then "png" else "jpeg"
      | Some given => given
      end.
Proof.
  unfold planLinkedInImage.
  destruct (LINKEDIN_SPECS !! type) as [spec |] eqn:Hspec;
    [| destruct (inheritedKey type); discriminate].
  plan_cases colors color; try discriminate; intros [= <-];
    exists spec; cbn; auto.
Qed.

(** X18: a request that passes validation gets dimensions that
    are positive and at least the LinkedIn minimum of its type, with or
    without the recommended sizes. *)
Theorem planLinkedInImage_dimensions (colors : gmap string string)
    (type color : string) (format : option string) (useRecommended : bool)
    (plan : LinkedInPlan) :
  planLinkedInImage colors type color format useRecommended = inr plan ->
  exists spec,
    LINKEDIN_SPECS !! type = Some spec /\
    0 < dim_width (spec_min spec) <= plan_width plan /\
    0 < dim_height (spec_min spec) <= plan_height plan /\
    plan_width plan <= dim_width (spec_recommended spec) /\
    plan_height plan <= dim_height (spec_recommended spec).
Proof.
  intros Hplan.
  destruct (planLinkedInImage_inr _ _ _ _ _ _ Hplan)
    as (spec & Hspec & -> & -> & _).
  exists spec. split; [exact Hspec |].
  apply LINKEDIN_SPECS_cases in Hspec. rewrite !elem_of_cons in Hspec.
  destruct Hspec as [[= _ ->] | [[= _ ->] | [[= _ ->] | [[= _ ->] |
                    [[= _ ->] | [[= _ ->] | H]]]]]];
    [destruct useRecommended; cbn; lia .. |].
  now apply not_elem_of_nil in H.
Qed.

Lemma planLinkedInImage_dimensions_witness :
  exists spec,
    LINKEDIN_SPECS !! "photo" = Some spec /\
    0 < dim_width (spec_min spec) <= 264 /\
    0 < dim_height (spec_min spec) <= 176 /\
    264 <= dim_width (spec_recommended spec) /\
    176 <= dim_height (spec_recommended spec).
Proof.
  apply (planLinkedInImage_dimensions {[ "navy" := "#1E2A45" ]} "photo" "NAVY"
           None false (mkLinkedInPlan 264 176 (OwnColor "#1E2A45") "jpeg")).
  vm_compute. reflexivity.
Defined.

(** X19: the JPEG encoder (quality 90) is used for the first
    encoding exactly when the format given is the string "jpeg", or no
    format (null or the empty string) is given and the type is not "logo";
    in every other case, e.g. for "jpg" or "JPEG", the image is encoded as
    PNG. *)
Theorem planLinkedInImage_encoder (colors : gmap string string)
    (type color : string) (format : option string) (useRecommended : bool)
    (plan : LinkedInPlan) :
  planLinkedInImage colors type color format useRecommended = inr plan ->
  let noFormat := format = None \/ format = Some EmptyString in
  (firstOptions (plan_outputFormat plan) = JpegOptions 90 true <->
   format = Some "jpeg" \/ (noFormat /\ type <> "logo")) /\
  (firstOptions (plan_outputFormat plan) = PngOptions 9 None <->
   ~ (format = Some "jpeg" \/ (noFormat /\ type <> "logo"))).
Proof.
  intros Hplan.
  destruct (planLinkedInImage_inr _ _ _ _ _ _ Hplan) as (_ & _ & _ & _ & ->).
  unfold firstOptions.
  destruct format as [[| c' f] |].
  - destruct (String.eqb_spec type "logo") as [Hlogo | Hlogo]; cbn;
      (split; split; intuition (try congruence; try discriminate)).
  - destruct (String.eqb_spec (String c' f) "jpeg") as [Hj | Hj];
      (split; split; intuition (try congruence; try discriminate)).
  - destruct (String.eqb_spec type "logo") as [Hlogo | Hlogo]; cbn;
      (split; split; intuition (try congruence; try discriminate)).
Qed.

Lemma planLinkedInImage_encoder_witness :
  (firstOptions "jpg" = JpegOptions 90 true <->
   Some "jpg" = Some "jpeg" \/
   ((Some "jpg" = None \/ Some "jpg" = Some EmptyString) /\ "post" <> "logo")) /\
  (firstOptions "jpg" = PngOptions 9 None <->
   ~ (Some "jpg" = Some "jpeg" \/
      ((Some "jpg" = None \/ Some "jpg" = Some EmptyString) /\ "post" <> "logo"))).
Proof.
  apply (planLinkedInImage_encoder {[ "navy" := "#1E2A45" ]} "post" "navy"
           (Some "jpg") true (mkLinkedInPlan 1200 627 (OwnColor "#1E2A45") "jpg")).
  vm_compute. reflexivity.
Defined.

Lemma floor_scale_div (n a : Z) (d : positive) :
  Js.floor (Js.scale n (a # d)) = n * a / Z.pos d.
Proof. unfold Js.floor, Js.scale, Qfloor, Qmult, inject_Z. now cbn. Qed.

(** The logo lies inside an image of any positive size; for the type
    "title" the image must not be higher than 19/8 of its width. *)
Lemma logo_within (type : string) (width height : Z) :
  0 < width -> 0 < height ->
  (type = "title" -> 8 * height <= 19 * width) ->
  let size := logoSizeFor type width height in
  let position := logoPositionFor type width height size in
  0 <= size /\
  0 <= fst position /\ fst position + size <= width /\
  0 <= snd position /\ snd position + size <= height.
Proof.
  intros Hw Hh Htitle. cbv zeta. unfold logoSizeFor, logoPositionFor.
  destruct (String.eqb_spec type "logo") as [_ | _];
    [| destruct (String.eqb_spec type "title") as [Ht | _];
       [specialize (Htitle Ht) |]];
    cbn [fst snd]; rewrite ?floor_scale_div, ?floor_half_div;
    Z.div_mod_to_equations; lia.
Qed.

(** X20: for every request that passes validation, the logo computed
    for the type and the dimensions of the plan has a positive size and
    lies entirely inside the image. *)
Theorem linkedin_logo_within_image (colors : gmap string string)
    (type color : string) (format : option string) (useRecommended : bool)
    (plan : LinkedInPlan) :
  planLinkedInImage colors type color format useRecommended = inr plan ->
  let size := logoSizeFor type (plan_width plan) (plan_height plan) in
  let position :=
    logoPositionFor type (plan_width plan) (plan_height plan) size in
  0 < size /\
  0 <= fst position /\ fst position + size <= plan_width plan /\
  0 <= snd position /\ snd position + size <= plan_height plan.
Proof.
  intros Hplan.
  destruct (planLinkedInImage_inr colors type color format
              useRecommended plan Hplan) as (spec & Hspec & Hw & Hh & _).
  pose proof (conj Hw Hh) as Hdims. clear Hw Hh.
  apply LINKEDIN_SPECS_cases in Hspec. rewrite !elem_of_cons in Hspec.
  destruct Hspec as [[= -> ->] | [[= -> ->] | [[= -> ->] | [[= -> ->] |
                    [[= -> ->] | [[= -> ->] | H]]]]]];
    [| | | | | | now apply not_elem_of_nil in H];
    destruct useRecommended; cbn in Hdims; destruct Hdims as [-> ->];
    vm_compute; repeat split; congruence.
Qed.

Lemma linkedin_logo_within_image_witness :
  let size := logoSizeFor "title" 4200 700 in
  let position := logoPositionFor "title" 4200 700 size in
  0 < size /\
  0 <= fst position /\ fst position + size <= 4200 /\
  0 <= snd position /\ snd position + size <= 700.
Proof.
  apply (linkedin_logo_within_image {[ "navy" := "#1E2A45" ]} "title" "navy"
           None true (mkLinkedInPlan 4200 700 (OwnColor "#1E2A45") "jpeg")).
  vm_compute. reflexivity.
Defined.

(** ** The encoder within and beyond the budget *)

(** X21: a first encoding of at most 3 * 1024 * 1024 bytes - the
    bound included - is written as it is: the codec runs once and no
    warning is emitted. *)
Theorem encodeAndWrite_within_budget
    (toBuffer : EncodeOptions -> option (list Z))
    (outputFormat outputPath : string) (buffer : list Z) :
  toBuffer (firstOptions outputFormat) = Some buffer ->
  Z.of_nat (length buffer) <= byteBudget ->
  run (encodeAndWrite toBuffer outputFormat outputPath) =
    (inr tt,
     [Encode (firstOptions outputFormat); WriteOutput outputPath buffer; LogDone]).
Proof.
  intros Hfirst Hfits.
  assert (Hover : exceedsLimit buffer = false).
  { apply not_true_iff_false. rewrite exceedsLimit_budget. lia. }
  unfold run, encodeAndWrite, tryCatch, encode, eff_bind, emit, when, eff_ret.
  cbn [app]. rewrite Hfirst, Hover. reflexivity.
Qed.

Lemma encodeAndWrite_within_budget_witness :
  run (encodeAndWrite (fun _ => Some (replicate (Z.to_nat 3145728) 0))
                      "png" "logo.png") =
    (inr tt,
     [Encode (firstOptions "png");
      WriteOutput "logo.png" (replicate (Z.to_nat 3145728) 0); LogDone]).
Proof.
  apply (encodeAndWrite_within_budget
           (fun _ => Some (replicate (Z.to_nat 3145728) 0)) "png" "logo.png"
           (replicate (Z.to_nat 3145728) 0)).
  - reflexivity.
  - rewrite length_replicate. unfold byteBudget. lia.
Defined.

(** X22: the encoding tail writes the output exactly when it
    succeeds, and then once; it fails only when the codec fails, with the
    options of the failed attempt, after logging the failure and without
    writing anything - also when the failure is that of the second
    attempt. *)
Theorem encodeAndWrite_writes_iff_success
    (toBuffer : EncodeOptions -> option (list Z))
    (outputFormat outputPath : string) :
  let result := run (encodeAndWrite toBuffer outputFormat outputPath) in
  match fst result with
  | inr _ =>
      exists buffer opts,
        written (snd result) = [buffer] /\
        toBuffer opts = Some buffer /\
        last (encodeCalls (snd result)) = Some opts /\
        last (snd result) = Some LogDone
  | inl err =>
      written (snd result) = [] /\
      last (snd result) = Some (LogFailure err) /\
      exists opts, err = CodecFailure opts /\ toBuffer opts = None /\
                   last (encodeCalls (snd result)) = Some opts
  end.
Proof.
  cbv zeta.
  apply (logs_run _ (fun res new =>
    match res with
    | inr _ =>
        exists buffer opts,
          written new = [buffer] /\ toBuffer opts = Some buffer /\
          last (encodeCalls new) = Some opts /\ last new = Some LogDone
    | inl err =>
        written new = [] /\ last new = Some (LogFailure err) /\
        exists opts, err = CodecFailure opts /\ toBuffer opts = None /\
                     last (encodeCalls new) = Some opts
    end)).
  unfold encodeAndWrite, encode.
  logs_auto; cbn; eauto 10.
Qed.

Example encodeAndWrite_retry_fails :
  run (encodeAndWrite example_failing_codec "jpeg" "post.jpg") =
  (inl (CodecFailure (JpegOptions 75 true)),
   [Encode (JpegOptions 90 true);
    Warn (ExceedsLimit (length example_oversized));
    Encode (JpegOptions 75 true);
    LogFailure (CodecFailure (JpegOptions 75 true))]).
Proof.
  unfold run, encodeAndWrite, tryCatch, encode, eff_bind, emit, when, eff_ret,
    throw.
  cbn [app]. change (firstOptions "jpeg") with (JpegOptions 90 true).
  change (retryOptions "jpeg") with (JpegOptions 75 true).
  cbn [example_failing_codec].
  assert (exceedsLimit example_oversized = true) as ->.
  { apply exceedsLimit_budget. rewrite example_oversized_length.
    unfold byteBudget. lia. }
  reflexivity.
Qed.

(** ** Sizes read from text *)

Example parseIntDecimal_examples :
  parseIntDecimal "512" = Js.ofZ 512 /\
  parseIntDecimal "  +64px" = Js.ofZ 64 /\
  parseIntDecimal "12.9" = Js.ofZ 12 /\
  parseIntDecimal "-5" = Js.ofZ (-5) /\
  parseIntDecimal "abc" = Js.NaN /\
  parseIntDecimal "" = Js.NaN /\
  parseIntDecimal "0x10" = Js.ofZ 0 /\
  parseIntDecimal "- 5" = Js.NaN.
Proof. repeat split; reflexivity. Qed.

Lemma parseIntDecimal_cases (input : string) :
  parseIntDecimal input = Js.NaN \/
  exists n, parseIntDecimal input = Js.ofZ n.
Proof.
  unfold parseIntDecimal. cbv zeta.
  destruct (match trimStart input with
            | String "-"%char rest => rest
            | String "+"%char rest => rest
            | _ => trimStart input
            end) as [| c rest]; [now left |].
  destruct (Js.digitValue c); [| now left].
  destruct (_ <? 10); [right; eauto | now left].
Qed.

Lemma numberLt_ofZ (n z : Z) : numberLt (Js.ofZ n) z = (n <? z).
Proof.
  unfold numberLt, Js.ofZ. destruct (Z.ltb_spec n z) as [H | H].
  - apply negb_true_iff, not_true_iff_false. rewrite Qle_bool_iff, <- Zle_Qle. lia.
  - apply negb_false_iff. rewrite Qle_bool_iff, <- Zle_Qle. lia.
Qed.

Lemma numberGt_ofZ (n z : Z) : numberGt (Js.ofZ n) z = (z <? n).
Proof.
  unfold numberGt, Js.ofZ. destruct (Z.ltb_spec z n) as [H | H].
  - apply negb_true_iff, not_true_iff_false. rewrite Qle_bool_iff, <- Zle_Qle. lia.
  - apply negb_false_iff. rewrite Qle_bool_iff, <- Zle_Qle. lia.
Qed.

(** X23: a custom size accepted by the prompt parses to an integer
    that is positive and within the configured limits, and
    [generateAvatar] called with it never fails with the invalid-size
    error. *)
Theorem validateCustomSize_accepted (minSize maxSize : Z) (input : string)
    (w : World) (portraitPath colorName outputPath : string)
    (grayscale withShadow : bool) :
  validateCustomSize minSize maxSize input = SizeAccepted ->
  (exists n, parseIntDecimal input = Js.ofZ n /\
             1 <= n /\ minSize <= n <= maxSize) /\
  neverThrows isInvalidSize
    (generateAvatar w portraitPath colorName (parseIntDecimal input)
                    outputPath grayscale withShadow).
Proof.
  unfold validateCustomSize. cbv zeta.
  destruct (parseIntDecimal_cases input) as [-> | [n ->]];
    [intros Hd; discriminate Hd |].
  rewrite numberLt_ofZ, numberGt_ofZ.
  change (isNaN (Js.ofZ n)) with false. cbn [orb].
  destruct (Js.le_zero (Js.ofZ n)) eqn:Hle; [intros Hd; discriminate Hd |].
  destruct (Z.ltb_spec n minSize); [intros Hd; discriminate Hd |].
  destruct (Z.ltb_spec maxSize n); [intros Hd; discriminate Hd |]. intros _.
  assert (Hn : 1 <= n).
  { apply Z.lt_pred_le, Z.lt_nge. intros Hneg. cbn in Hneg.
    apply not_true_iff_false in Hle. apply Hle. unfold Js.le_zero.
    apply Qle_bool_iff. change (inject_Z n <= inject_Z 0)%Q.
    now rewrite <- Zle_Qle. }
  split; [exists n; repeat split; [assumption | lia ..] |].
  now apply generateAvatar_no_size_error.
Qed.

Lemma validateCustomSize_accepted_witness :
  (exists n, parseIntDecimal " 256px" = Js.ofZ n /\
             1 <= n /\ 64 <= n <= 4096) /\
  neverThrows isInvalidSize
    (generateAvatar example_world "portrait.png" "aqua"
                    (parseIntDecimal " 256px") "out.png" false true).
Proof.
  apply (validateCustomSize_accepted 64 4096 " 256px" example_world
           "portrait.png" "aqua" "out.png" false true).
  vm_compute. reflexivity.
Defined.

Example validateCustomSize_examples :
  validateCustomSize 64 4096 "abc" = NotPositive /\
  validateCustomSize 64 4096 "0" = NotPositive /\
  validateCustomSize 64 4096 "-300" = NotPositive /\
  validateCustomSize 64 4096 "63" = OutOfRange /\
  validateCustomSize 64 4096 "4097" = OutOfRange /\
  validateCustomSize 64 4096 "64" = SizeAccepted /\
  validateCustomSize 64 4096 "4096.9" = SizeAccepted.
Proof. repeat split; vm_compute; reflexivity. Qed.

(** ** The command line of the avatar generator *)

Lemma list_pair_ind {A} (P : list A -> Prop) :
  P [] ->
  (forall x, P [x]) ->
  (forall x y l, P l -> P (y :: l) -> P (x :: y :: l)) ->
  forall l, P l.
Proof.
  intros Hnil Hone Hstep l.
  assert (H : P l /\ forall x, P (x :: l)).
  { induction l as [| y l [IH1 IH2]]; [split; auto |].
    split; [apply IH2 |]. intros x. apply Hstep; [exact IH1 | apply IH2]. }
  apply H.
Qed.

Lemma toLowerCase_idempotent (s : string) :
  Js.toLowerCase (Js.toLowerCase s) = Js.toLowerCase s.
Proof.
  induction s as [| c s IH]; [reflexivity |].
  cbn [Js.toLowerCase]. rewrite IH.
  destruct (lowerChar_facts c) as (_ & _ & _ & ->). reflexivity.
Qed.

Lemma parseArgsFrom_last (arg : string) (parsed : AvatarArgs) :
  parseArgsFrom [arg] parsed =
  if isGrayscaleFlag arg then
    Parsed (mkAvatarArgs (arg_portrait parsed) (arg_color parsed)
              (arg_size parsed) (arg_output parsed) true
              (arg_withShadow parsed))
  else if String.eqb arg "--no-shadow" then
    Parsed (mkAvatarArgs (arg_portrait parsed) (arg_color parsed)
              (arg_size parsed) (arg_output parsed) (arg_grayscale parsed)
              false)
  else if isHelpFlag arg then HelpRequested
  else Parsed parsed.
Proof. reflexivity. Qed.

Lemma parseArgsFrom_cons2 (arg value : string) (rest : list string)
    (parsed : AvatarArgs) :
  parseArgsFrom (arg :: value :: rest) parsed =
  if String.eqb arg "--portrait" then
    parseArgsFrom rest
      (mkAvatarArgs (Some value) (arg_color parsed) (arg_size parsed)
         (arg_output parsed) (arg_grayscale parsed) (arg_withShadow parsed))
  else if String.eqb arg "--color" then
    parseArgsFrom rest
      (mkAvatarArgs (arg_portrait parsed) (Some (Js.toLowerCase value))
         (arg_size parsed) (arg_output parsed) (arg_grayscale parsed)
         (arg_withShadow parsed))
  else if String.eqb arg "--size" then
    parseArgsFrom rest
      (mkAvatarArgs (arg_portrait parsed) (arg_color parsed)
         (parseIntDecimal value) (arg_output parsed) (arg_grayscale parsed)
         (arg_withShadow parsed))
  else if String.eqb arg "--output" then
    parseArgsFrom rest
      (mkAvatarArgs (arg_portrait parsed) (arg_color parsed) (arg_size parsed)
         (Some value) (arg_grayscale parsed) (arg_withShadow parsed))
  else if isGrayscaleFlag arg then
    parseArgsFrom (value :: rest)
      (mkAvatarArgs (arg_portrait parsed) (arg_color parsed) (arg_size parsed)
         (arg_output parsed) true (arg_withShadow parsed))
  else if String.eqb arg "--no-shadow" then
    parseArgsFrom (value :: rest)
      (mkAvatarArgs (arg_portrait parsed) (arg_color parsed) (arg_size parsed)
         (arg_output parsed) (arg_grayscale parsed) false)
  else if isHelpFlag arg then HelpRequested
  else parseArgsFrom (value :: rest) parsed.
Proof. reflexivity. Qed.

Ltac parseArgs_cases :=
  repeat match goal with
         | |- context [if ?c then _ else _] => destruct c eqn:?
         end.

(** A property of the parsed object that every assignment of the loop
    keeps holds of the result. *)
Lemma parseArgsFrom_invariant (Inv : AvatarArgs -> Prop) :
  (forall p v, Inv p ->
     Inv (mkAvatarArgs (Some v) (arg_color p) (arg_size p) (arg_output p)
            (arg_grayscale p) (arg_withShadow p))) ->
  (forall p v, Inv p ->
     Inv (mkAvatarArgs (arg_portrait p) (Some (Js.toLowerCase v)) (arg_size p)
            (arg_output p) (arg_grayscale p) (arg_withShadow p))) ->
  (forall p v, Inv p ->
     Inv (mkAvatarArgs (arg_portrait p) (arg_color p) (parseIntDecimal v)
            (arg_output p) (arg_grayscale p) (arg_withShadow p))) ->
  (forall p v, Inv p ->
     Inv (mkAvatarArgs (arg_portrait p) (arg_color p) (arg_size p) (Some v)
            (arg_grayscale p) (arg_withShadow p))) ->
  (forall p, Inv p ->
     Inv (mkAvatarArgs (arg_portrait p) (arg_color p) (arg_size p)
            (arg_output p) true (arg_withShadow p))) ->
  (forall p, Inv p ->
     Inv (mkAvatarArgs (arg_portrait p) (arg_color p) (arg_size p)
            (arg_output p) (arg_grayscale p) false)) ->
  forall args parsed result,
    Inv parsed -> parseArgsFrom args parsed = Parsed result -> Inv result.
Proof.
  intros Hportrait Hcolor Hsize Houtput Hgray Hshadow args.
  induction args as [| arg | arg value rest IH2 IH1] using list_pair_ind;
    intros parsed result Hinv.
  - now intros [= <-].
  - rewrite parseArgsFrom_last. parseArgs_cases;
      try discriminate; intros [= <-]; auto.
  - rewrite parseArgsFrom_cons2. parseArgs_cases; try discriminate; eauto.
Qed.

(** X24: whatever the arguments, the colour returned by
    [parseArgs] is null or in lower case, the size is the default, NaN or
    an integer, the grayscale option is the default or switched on, and
    the shadow option is the default or switched off. *)
Theorem parseArgs_result_shape (defaultSize : Js.Number)
    (defaultGrayscale defaultWithShadow : bool) (args : list string)
    (result : AvatarArgs) :
  parseArgs defaultSize defaultGrayscale defaultWithShadow args = Parsed result ->
  (forall color, arg_color result = Some color -> Js.toLowerCase color = color) /\
  (arg_size result = defaultSize \/ arg_size result = Js.NaN \/
   exists n, arg_size result = Js.ofZ n) /\
  (arg_grayscale result = defaultGrayscale \/ arg_grayscale result = true) /\
  (arg_withShadow result = defaultWithShadow \/ arg_withShadow result = false).
Proof.
  unfold parseArgs.
  apply (parseArgsFrom_invariant (fun p =>
    (forall color, arg_color p = Some color -> Js.toLowerCase color = color) /\
    (arg_size p = defaultSize \/ arg_size p = Js.NaN \/
     exists n, arg_size p = Js.ofZ n) /\
    (arg_grayscale p = defaultGrayscale \/ arg_grayscale p = true) /\
    (arg_withShadow p = defaultWithShadow \/ arg_withShadow p = false)));
    try (intros p v (H1 & H2 & H3 & H4); cbn; repeat split; auto; fail);
    try (intros p (H1 & H2 & H3 & H4); cbn; repeat split; auto; fail).
  - intros p v (H1 & H2 & H3 & H4). cbn. repeat split; auto.
    intros color [= <-]. apply toLowerCase_idempotent.
  - intros p v (H1 & H2 & H3 & H4). cbn. repeat split; auto.
    right. apply parseIntDecimal_cases.
  - cbn. repeat split; auto. discriminate.
Qed.

Lemma parseArgs_result_shape_witness :
  let result :=
    mkAvatarArgs (Some "p.png") (Some "aqua") Js.NaN None true false in
  (forall color, arg_color result = Some color -> Js.toLowerCase color = color) /\
  (arg_size result = Js.ofZ 512 \/ arg_size result = Js.NaN \/
   exists n, arg_size result = Js.ofZ n) /\
  (arg_grayscale result = false \/ arg_grayscale result = true) /\
  (arg_withShadow result = true \/ arg_withShadow result = false).
Proof.
  apply (parseArgs_result_shape (Js.ofZ 512) false true
           ["--portrait"; "p.png"; "--color"; "AQUA"; "--size"; "big";
            "--grey"; "--no-shadow"; "--output"]).
  vm_compute. reflexivity.
Defined.

(** ** The command line: what the flags can change, and the mode of [main] *)

#[local] Set Warnings "-clear-no-such-hyp".

Lemma isGrayscaleFlag_true (arg : string) :
  isGrayscaleFlag arg = true ->
  arg = "--grayscale" \/ arg = "--grey" \/ arg = "--gray".
Proof.
  unfold isGrayscaleFlag. rewrite !orb_true_iff, !String.eqb_eq. tauto.
Qed.

Lemma isHelpFlag_true (arg : string) :
  isHelpFlag arg = true -> arg = "--help" \/ arg = "-h".
Proof. unfold isHelpFlag. now rewrite orb_true_iff, !String.eqb_eq. Qed.

Lemma parseArgsFrom_needs_flag (args : list string) :
  forall parsed,
    match parseArgsFrom args parsed with
    | HelpRequested => "--help" ∈ args \/ "-h" ∈ args
    | Parsed result => unchangedWithoutFlag args parsed result
    end.
Proof.
  induction args as [| arg | arg value rest IH2 IH1] using list_pair_ind;
    intros parsed.
  - cbn. unfold unchangedWithoutFlag. tauto.
  - rewrite parseArgsFrom_last. parseArgs_cases; unfold unchangedWithoutFlag;
      cbn [arg_portrait arg_color arg_size arg_output arg_grayscale
           arg_withShadow];
      repeat match goal with
             | H : isGrayscaleFlag _ = true |- _ =>
                 apply isGrayscaleFlag_true in H
             | H : isHelpFlag _ = true |- _ => apply isHelpFlag_true in H
             | H : String.eqb _ _ = true |- _ => apply String.eqb_eq in H
             end;
      set_solver.
  - rewrite parseArgsFrom_cons2. parseArgs_cases;
      repeat match goal with
             | H : isGrayscaleFlag _ = true |- _ =>
                 apply isGrayscaleFlag_true in H
             | H : isHelpFlag _ = true |- _ => apply isHelpFlag_true in H
             | H : String.eqb _ _ = true |- _ => apply String.eqb_eq in H
             end;
      try match goal with
          | |- context [parseArgsFrom rest ?p] => specialize (IH2 p)
          | |- context [parseArgsFrom (value :: rest) ?p] => specialize (IH1 p)
          end;
      try match goal with
          | |- context [parseArgsFrom ?l ?p] =>
              destruct (parseArgsFrom l p)
          end;
      unfold unchangedWithoutFlag in *;
      cbn [arg_portrait arg_color arg_size arg_output arg_grayscale
           arg_withShadow] in *;
      set_solver.
Qed.

Lemma parseArgs_needs_flag_aux (defaultSize : Js.Number)
    (defaultGrayscale defaultWithShadow : bool) (args : list string) :
  match parseArgs defaultSize defaultGrayscale defaultWithShadow args with
  | HelpRequested => "--help" ∈ args \/ "-h" ∈ args
  | Parsed result =>
      ("--portrait" ∉ args -> arg_portrait result = None) /\
      ("--color" ∉ args -> arg_color result = None) /\
      ("--size" ∉ args -> arg_size result = defaultSize) /\
      ("--output" ∉ args -> arg_output result = None) /\
      ("--grayscale" ∉ args -> "--grey" ∉ args -> "--gray" ∉ args ->
       arg_grayscale result = defaultGrayscale) /\
      ("--no-shadow" ∉ args -> arg_withShadow result = defaultWithShadow)
  end.
Proof.
  unfold parseArgs.
  apply (parseArgsFrom_needs_flag args
           (mkAvatarArgs None None defaultSize None defaultGrayscale
              defaultWithShadow)).
Qed.

(** X25: [parseArgs] answers with the help request only when
    "--help" or "-h" is among the arguments, and it never changes a
    setting whose flag does not occur: portrait, colour and output stay
    null, the size and the two options keep their defaults. *)
Theorem parseArgs_needs_flag (defaultSize : Js.Number)
    (defaultGrayscale defaultWithShadow : bool) (args : list string) :
  match parseArgs defaultSize defaultGrayscale defaultWithShadow args with
  | HelpRequested => "--help" ∈ args \/ "-h" ∈ args
  | Parsed result =>
      ("--portrait" ∉ args -> arg_portrait result = None) /\
      ("--color" ∉ args -> arg_color result = None) /\
      ("--size" ∉ args -> arg_size result = defaultSize) /\
      ("--output" ∉ args -> arg_output result = None) /\
      ("--grayscale" ∉ args -> "--grey" ∉ args -> "--gray" ∉ args ->
       arg_grayscale result = defaultGrayscale) /\
      ("--no-shadow" ∉ args -> arg_withShadow result = defaultWithShadow)
  end.
Proof. apply parseArgs_needs_flag_aux. Qed.

(** A flag that follows an option expecting a value is taken as that
    value; an option at the end of the line has no effect. *)
Example parseArgs_help_as_value :
  parseArgs (Js.ofZ 512) false true ["--output"; "--help"] =
    Parsed (mkAvatarArgs None None (Js.ofZ 512) (Some "--help") false true) /\
  parseArgs (Js.ofZ 512) false true ["--no-shadow"; "--size"] =
    Parsed (mkAvatarArgs None None (Js.ofZ 512) None false false) /\
  parseArgs (Js.ofZ 512) false true ["--size"; "64"; "--size"; "x"; "-h"] =
    HelpRequested.
Proof. repeat split; reflexivity. Qed.

(** ** From the command line to the generator *)

Lemma includes_true (names : list string) (name : string) :
  includes names name = true <-> name ∈ names.
Proof.
  unfold includes. rewrite existsb_exists. split.
  - intros (x & Hin & Heq). apply String.eqb_eq in Heq as ->.
    now apply list_elem_of_In.
  - intros Hin. exists name. split; [now apply list_elem_of_In |].
    apply String.eqb_refl.
Qed.

(** X26: [main] calls [generateAvatar] from the command line only with a
    portrait, a colour and an output that were given with their options
    and are not empty, and with a colour that is one of aqua, navy and
    fuchsia, in lower case, and a key of the configured brand colours. *)
Theorem main_generates_only_valid_colour (configColorNames : list string)
    (defaultSize : Js.Number) (defaultGrayscale defaultWithShadow : bool)
    (args : list string) (portrait color : string) (size : Js.Number)
    (output : string) (grayscale withShadow : bool) :
  mainAction configColorNames
    (parseArgs defaultSize defaultGrayscale defaultWithShadow args) =
    Generate portrait color size output grayscale withShadow ->
  color ∈ brandColorNames /\ color ∈ configColorNames /\
  Js.toLowerCase color = color /\
  portrait <> EmptyString /\ output <> EmptyString /\
  "--portrait" ∈ args /\ "--color" ∈ args /\ "--output" ∈ args.
Proof.
  unfold mainAction.
  pose proof (parseArgs_needs_flag_aux defaultSize defaultGrayscale
                defaultWithShadow args) as Hflag.
  destruct (parseArgs defaultSize defaultGrayscale defaultWithShadow args)
    as [| parsed] eqn:Hparse; [discriminate |].
  destruct (arg_portrait parsed) as [[| c1 p] |] eqn:Hp; try discriminate.
  destruct (arg_color parsed) as [[| c2 c] |] eqn:Hc; try discriminate.
  destruct (arg_output parsed) as [[| c3 o] |] eqn:Ho; try discriminate.
  cbn [truthy andb default from_option id]. cbv zeta.
  destruct (includes (List.filter (includes brandColorNames) configColorNames)
              (String c2 c)) eqn:Hvalid; [| intros Hd; discriminate Hd].
  intros [= <- <- <- <- <- <-].
  apply includes_true in Hvalid.
  apply list_elem_of_In, filter_In in Hvalid as [Hcfg Hbrand].
  apply includes_true in Hbrand. apply list_elem_of_In in Hcfg.
  destruct Hflag as (Fp & Fc & _ & Fo & _).
  split; [exact Hbrand |]. split; [exact Hcfg |].
  split.
  { unfold brandColorNames in Hbrand. rewrite !elem_of_cons in Hbrand.
    destruct Hbrand as [-> | [-> | [-> | H]]]; try reflexivity.
    now apply not_elem_of_nil in H. }
  split; [discriminate |]. split; [discriminate |].
  repeat split.
  - destruct (decide ("--portrait" ∈ args)) as [H | H]; [exact H |].
    specialize (Fp H). discriminate.
  - destruct (decide ("--color" ∈ args)) as [H | H]; [exact H |].
    specialize (Fc H). discriminate.
  - destruct (decide ("--output" ∈ args)) as [H | H]; [exact H |].
    specialize (Fo H). discriminate.
Qed.

Lemma main_generates_only_valid_colour_witness :
  "aqua" ∈ brandColorNames /\ "aqua" ∈ ["navy"; "aqua"; "white"] /\
  Js.toLowerCase "aqua" = "aqua" /\
  "p.png" <> EmptyString /\ "o.png" <> EmptyString /\
  "--portrait" ∈ ["--color"; "AQUA"; "--portrait"; "p.png"; "--output"; "o.png"] /\
  "--color" ∈ ["--color"; "AQUA"; "--portrait"; "p.png"; "--output"; "o.png"] /\
  "--output" ∈ ["--color"; "AQUA"; "--portrait"; "p.png"; "--output"; "o.png"].
Proof.
  apply (main_generates_only_valid_colour ["navy"; "aqua"; "white"]
           (Js.ofZ 512) false true
           ["--color"; "AQUA"; "--portrait"; "p.png"; "--output"; "o.png"]
           "p.png" "aqua" (Js.ofZ 512) "o.png" false true).
  vm_compute. reflexivity.
Defined.

Example mainAction_examples :
  mainAction ["aqua"; "navy"; "fuchsia"]
    (parseArgs (Js.ofZ 512) false true
       ["--portrait"; "p.png"; "--color"; "white"; "--output"; "o.png"]) =
    RejectColor "white" /\
  mainAction ["aqua"; "navy"; "fuchsia"]
    (parseArgs (Js.ofZ 512) false true ["--portrait"; "p.png"; "--color"; "navy"]) =
    Interactive /\
  mainAction ["aqua"; "navy"; "fuchsia"]
    (parseArgs (Js.ofZ 512) false true
       ["--portrait"; ""; "--color"; "navy"; "--output"; "o.png"]) =
    Interactive.
Proof. repeat split; reflexivity. Qed.

(** ** The configuration loader *)

(** X27: once [loadConfig] has returned a configuration that is a
    truthy value, every later call returns the same value from the cache
    without reading the file, whatever has become of the file; a failed
    call leaves the cache as it was. *)
Theorem loadConfig_cached (files later : LoaderFiles)
    (cachedConfig config cache : JsValue) (events : list LoaderEvent) :
  (loadConfig files cachedConfig = (inr config, cache, events) ->
   truthyValue config = true ->
   loadConfig later cache = (inr config, cache, [])) /\
  (forall err,
     loadConfig files cachedConfig = (inl err, cache, events) ->
     cache = cachedConfig /\ truthyValue cachedConfig = false /\
     err = ConfigLoadFailed).
Proof.
  unfold loadConfig. split.
  - destruct (truthyValue cachedConfig) eqn:Hc.
    + intros [= <- <- _] Ht. now rewrite Ht.
    + destruct (configExists files); cbn [negb]; [| discriminate].
      destruct (configContent files); [| discriminate].
      intros [= <- <- _] Ht. now rewrite Ht.
  - intros err.
    destruct (truthyValue cachedConfig) eqn:Hc; [discriminate |].
    destruct (configExists files); cbn [negb].
    + destruct (configContent files); [discriminate |].
      now intros [= <- <- _].
    + now intros [= <- <- _].
Qed.

Lemma loadConfig_cached_witness :
  loadConfig (mkLoaderFiles false None false None) example_config_json =
  (inr example_config_json, example_config_json, []).
Proof.
  destruct (loadConfig_cached
              (mkLoaderFiles true (Some example_config_json) false None)
              (mkLoaderFiles false None false None)
              JNull example_config_json example_config_json [ReadConfig])
    as [Hcache _].
  apply Hcache; reflexivity.
Defined.

(** A configuration that is a falsy value (such as [null] or [0]) is
    returned but never served from the cache: the file is read again. *)
Example loadConfig_falsy_not_cached :
  let files := mkLoaderFiles true (Some (JNumber 0)) false None in
  loadConfig files JNull = (inr (JNumber 0), JNumber 0, [ReadConfig]) /\
  loadConfig files (JNumber 0) = (inr (JNumber 0), JNumber 0, [ReadConfig]).
Proof. split; reflexivity. Qed.

Lemma brandColorsFromConfig_ok (files : LoaderFiles)
    (cachedConfig config cache : JsValue) (evs events : list LoaderEvent)
    (colors : BrandColors) :
  loadConfig files cachedConfig = (inr config, cache, evs) ->
  readColors config ["brand"; "colors"] [] = Some colors ->
  brandColorsFromConfig files cachedConfig events =
    (inr colors, cache, events ++ evs).
Proof.
  intros Hload Hread. unfold brandColorsFromConfig. now rewrite Hload, Hread.
Qed.

(** X28: when the configuration can be loaded and holds the three
    brand colours, [loadBrandColors] never throws, whatever the state of
    colors.json: it returns the three colours of colors.json when that
    file yields all three, and otherwise the three colours of the
    configuration - never a mixture - with a warning exactly when
    colors.json exists but could not be used. *)
Theorem loadBrandColors_fallback (files : LoaderFiles)
    (cachedConfig config cache : JsValue) (evs : list LoaderEvent)
    (fromConfig : BrandColors) :
  loadConfig files cachedConfig = (inr config, cache, evs) ->
  readColors config ["brand"; "colors"] [] = Some fromConfig ->
  let fromFile :=
    if colorsExists files
    then colorsContent files ≫= (fun data => readColors data ["selection"] ["hex"])
    else None in
  loadBrandColors files cachedConfig =
    match fromFile with
    | Some colors => (inr colors, cachedConfig, [ReadColors])
    | None =>
        (inr fromConfig, cache,
         (if colorsExists files then [ReadColors; WarnColors] else []) ++ evs)
    end.
Proof.
  intros Hload Hread. cbv zeta. unfold loadBrandColors.
  destruct (colorsExists files).
  - destruct (colorsContent files) as [data |]; cbn [mbind option_bind].
    + destruct (readColors data ["selection"] ["hex"]); [reflexivity |].
      now apply brandColorsFromConfig_ok with config.
    + now apply brandColorsFromConfig_ok with config.
  - now apply brandColorsFromConfig_ok with config.
Qed.

Lemma loadBrandColors_fallback_witness :
  loadBrandColors
    (mkLoaderFiles true (Some example_config_json)
                   true (Some example_broken_colors)) JNull =
  (inr (mkBrandColors (JString "#00FFDC") (JString "#1E2A45")
                      (JString "#FF008F")),
   example_config_json, [ReadColors; WarnColors; ReadConfig]).
Proof.
  apply (loadBrandColors_fallback
           (mkLoaderFiles true (Some example_config_json)
                          true (Some example_broken_colors))
           JNull example_config_json example_config_json [ReadConfig]
           (mkBrandColors (JString "#00FFDC") (JString "#1E2A45")
                          (JString "#FF008F")));
    reflexivity.
Defined.

(** A colours file that yields the three colours makes [loadBrandColors]
    succeed without the configuration being looked at, even when the
    configuration file is missing. *)
Lemma loadBrandColors_file_first (files : LoaderFiles)
    (cachedConfig colorsData : JsValue) (colors : BrandColors) :
  colorsExists files = true ->
  colorsContent files = Some colorsData ->
  readColors colorsData ["selection"] ["hex"] = Some colors ->
  loadBrandColors files cachedConfig = (inr colors, cachedConfig, [ReadColors]) /\
  (forall aqua, getPath colorsData ["selection"; "aqua"; "hex"] = Some aqua ->
                bc_aqua colors = aqua).
Proof.
  intros He Hc Hr. unfold loadBrandColors. rewrite He, Hc, Hr.
  split; [reflexivity |]. intros aqua Ha.
  unfold readColors in Hr. cbn [app] in Hr. rewrite Ha in Hr.
  destruct (getPath colorsData ["selection"; "navy"; "hex"]); [| discriminate].
  destruct (getPath colorsData ["selection"; "fuchsia"; "hex"]); [| discriminate].
  now injection Hr as <-.
Qed.

(** ** File names of a batch *)

Lemma list_of_append (s1 s2 : string) :
  list_ascii_of_string (s1 +:+ s2) =
  list_ascii_of_string s1 ++ list_ascii_of_string s2.
Proof.
  induction s1 as [| c s1 IH]; [reflexivity |]. simpl. f_equal. exact IH.
Qed.

Lemma list_ascii_inj (s1 s2 : string) :
  list_ascii_of_string s1 = list_ascii_of_string s2 -> s1 = s2.
Proof.
  intros H. rewrite <- (string_of_list_ascii_of_string s1),
    <- (string_of_list_ascii_of_string s2). now rewrite H.
Qed.

Lemma append_inv_head (s t1 t2 : string) : s +:+ t1 = s +:+ t2 -> t1 = t2.
Proof. induction s as [| c s IH]; [trivial |]. intros [= H]. auto. Qed.

Lemma append_inv_tail (s1 s2 t : string) : s1 +:+ t = s2 +:+ t -> s1 = s2.
Proof.
  intros H. apply list_ascii_inj.
  apply (f_equal list_ascii_of_string) in H. rewrite !list_of_append in H.
  now apply app_inv_tail in H.
Qed.

(** For one portrait and one grayscale choice, the file name determines
    the colour and the size. *)
Lemma avatarFileName_inj (portraitName : string) (grayscale : bool)
    (color1 color2 : string) (size1 size2 : Z) :
  color1 ∈ brandColorNames -> color2 ∈ brandColorNames ->
  avatarFileName portraitName color1 size1 grayscale =
  avatarFileName portraitName color2 size2 grayscale ->
  color1 = color2 /\ size1 = size2.
Proof.
  unfold avatarFileName, brandColorNames. rewrite !elem_of_cons.
  intros H1 H2 Heq.
  apply append_inv_head, append_inv_head, append_inv_head in Heq.
  assert (Hsize : forall c, c +:+ "-" +:+ pretty size1
                    +:+ (if grayscale then "-grayscale" else "") +:+ ".png" =
                  c +:+ "-" +:+ pretty size2
                    +:+ (if grayscale then "-grayscale" else "") +:+ ".png" ->
                  size1 = size2).
  { intros c H. apply append_inv_head, append_inv_head in H.
    apply append_inv_tail in H. now apply (inj pretty) in H. }
  destruct H1 as [-> | [-> | [-> | H1]]]; [| | | now apply not_elem_of_nil in H1];
    (destruct H2 as [-> | [-> | [-> | H2]]];
     [| | | now apply not_elem_of_nil in H2]);
    first [ split; [reflexivity | eapply Hsize; exact Heq]
          | discriminate Heq ].
Qed.

(** X29: the batch of [promptMultipleAvatars] has one job for every
    selected colour and size, each with the answers given for grayscale and
    shadow; when the selections hold no colour and no size twice, no two
    jobs have the same output file name. *)
Theorem multipleAvatarJobs_distinct (portraitPath portraitName : string)
    (grayscale withShadow : bool) (selectedColors : list string)
    (selectedSizes : list Z) :
  let jobs := multipleAvatarJobs portraitPath portraitName grayscale withShadow
                selectedColors selectedSizes in
  length jobs = (length selectedColors * length selectedSizes)%nat /\
  (forall job, job ∈ jobs ->
     job_portraitPath job = portraitPath /\
     job_grayscale job = grayscale /\ job_withShadow job = withShadow /\
     job_color job ∈ selectedColors /\ job_size job ∈ selectedSizes) /\
  (selectedColors ⊆ brandColorNames -> NoDup selectedColors ->
   NoDup selectedSizes -> NoDup (job_fileName <$> jobs)).
Proof.
  cbv zeta. unfold multipleAvatarJobs. split; [| split].
  - assert (Hinner : forall color,
              length (selectedSizes ≫= fun size =>
                [mkAvatarJob portraitPath color size grayscale withShadow
                   (avatarFileName portraitName color size grayscale)]) =
              length selectedSizes).
    { intros color. induction selectedSizes as [| s ss IHs]; [reflexivity |].
      csimpl. now rewrite IHs. }
    induction selectedColors as [| c cs IH]; [reflexivity |].
    csimpl. now rewrite length_app, IH, Hinner.
  - intros job Hjob.
    apply list_elem_of_bind in Hjob as (color & Hjob & Hcolor).
    apply list_elem_of_bind in Hjob as (size & Hjob & Hsize).
    apply list_elem_of_singleton in Hjob as ->. cbn. auto.
  - intros Hbrand Hcolors Hsizes.
    apply NoDup_fmap_2_strong.
    + intros j1 j2 Hj1 Hj2 Hname.
      apply list_elem_of_bind in Hj1 as (c1 & Hj1 & Hc1).
      apply list_elem_of_bind in Hj1 as (s1 & Hj1 & Hs1).
      apply list_elem_of_singleton in Hj1 as ->.
      apply list_elem_of_bind in Hj2 as (c2 & Hj2 & Hc2).
      apply list_elem_of_bind in Hj2 as (s2 & Hj2 & Hs2).
      apply list_elem_of_singleton in Hj2 as ->.
      cbn in Hname. apply avatarFileName_inj in Hname as [-> ->];
        [reflexivity | apply Hbrand .. ]; assumption.
    + apply NoDup_bind; [| | exact Hcolors].
      * intros c1 c2 job _ _ H1 H2.
        apply list_elem_of_bind in H1 as (s1 & H1 & _).
        apply list_elem_of_singleton in H1 as ->.
        apply list_elem_of_bind in H2 as (s2 & H2 & _).
        apply list_elem_of_singleton in H2. now injection H2.
      * intros c _. apply NoDup_bind; [| | exact Hsizes].
        -- intros s1 s2 job _ _ H1 H2.
           apply list_elem_of_singleton in H1 as ->.
           apply list_elem_of_singleton in H2. now injection H2.
        -- intros s _. apply NoDup_singleton.
Qed.

Example multipleAvatarJobs_example :
  job_fileName <$>
    multipleAvatarJobs "in/anna.png" "anna" true true ["aqua"; "navy"] [256; 512] =
  ["avatar-anna-aqua-256-grayscale.png"; "avatar-anna-aqua-512-grayscale.png";
   "avatar-anna-navy-256-grayscale.png"; "avatar-anna-navy-512-grayscale.png"].
Proof. vm_compute. reflexivity. Qed.

(** ** The sample generator: failures stay inside their attempt *)

Lemma logs_conseq {E X A} (m : Eff E X A)
    (P Q : X + A -> list E -> Prop) :
  logs m P -> (forall res new, P res new -> Q res new) -> logs m Q.
Proof.
  intros Hm HPQ log. destruct (Hm log) as (res & new & Heq & HP). eauto.
Qed.

Lemma attemptsIn_app (l1 l2 : list BatchEvent) :
  attemptsIn (l1 ++ l2) = (attemptsIn l1 + attemptsIn l2)%nat.
Proof. unfold attemptsIn. now rewrite List.filter_app, length_app. Qed.

Lemma failuresIn_app (l1 l2 : list BatchEvent) :
  failuresIn (l1 ++ l2) = (failuresIn l1 + failuresIn l2)%nat.
Proof. unfold failuresIn. now rewrite List.filter_app, length_app. Qed.

Lemma counts_FromAvatar (events : list AvatarEvent) :
  attemptsIn (map FromAvatar events) = 0%nat /\
  failuresIn (map FromAvatar events) = 0%nat.
Proof.
  unfold attemptsIn, failuresIn.
  induction events as [| e events [IH1 IH2]]; [split; reflexivity |].
  cbn. auto.
Qed.

Lemma batchProgress_seq (n1 n2 : nat) (c0 c1 : BatchResult)
    (res : BatchError + BatchResult) (new1 new2 : list BatchEvent) :
  batchProgress n1 c0 (inr c1) new1 -> batchProgress n2 c1 res new2 ->
  batchProgress (n1 + n2) c0 res (new1 ++ new2).
Proof.
  intros (c & [= <-] & Hlen1 & Ha1 & Hf1) (after & -> & Hlen2 & Ha2 & Hf2).
  exists after. rewrite attemptsIn_app, failuresIn_app.
  repeat split; [auto | lia | lia].
Qed.

Lemma logs_attemptAvatar (w : World) (joinPath : string -> string -> string)
    (outputDir portraitPath portraitName color : string) (size : Z)
    (variant : SampleVariant) (counters : BatchResult) :
  logs (attemptAvatar w joinPath outputDir portraitPath portraitName color
          size variant counters)
       (batchProgress 1 counters).
Proof.
  intros log. unfold attemptAvatar. cbv zeta.
  destruct (run _) as [[err | []] events].
  - eexists _, _. split; [rewrite <- !app_assoc; reflexivity |].
    exists counters. rewrite !attemptsIn_app, !failuresIn_app.
    destruct (counts_FromAvatar events) as [-> ->].
    repeat split; cbn; lia.
  - eexists _, _. split; [reflexivity |].
    eexists. split; [reflexivity |]. rewrite !attemptsIn_app, !failuresIn_app.
    destruct (counts_FromAvatar events) as [-> ->].
    cbn. rewrite length_app. cbn. repeat split; lia.
Qed.

Lemma logs_foldEff_progress {A} (n : nat)
    (body : BatchResult -> A -> Eff BatchEvent BatchError BatchResult) :
  (forall counters x, logs (body counters x) (batchProgress n counters)) ->
  forall items counters,
    logs (foldEff items body counters)
         (batchProgress (n * length items) counters).
Proof.
  intros Hbody items. induction items as [| x items IH]; intros counters.
  - cbn [foldEff]. apply logs_ret. exists counters.
    rewrite Nat.mul_0_r. repeat split; auto.
  - cbn [foldEff]. apply logs_bind.
    eapply logs_conseq; [apply Hbody |].
    intros res new Hstep. pose proof Hstep as (c1 & -> & _).
    eapply logs_conseq; [apply IH |].
    intros res' new' Hrest. cbn [length].
    replace (n * S (length items))%nat with (n + n * length items)%nat by lia.
    eapply batchProgress_seq; eassumption.
Qed.

(** X30: with at least one portrait, the sample generator returns
    normally whatever happens in the calls of [generateAvatar]: it
    attempts the twelve combinations of colour, size and variant for every
    portrait, each attempt either adds its file name to the list of
    generated avatars or logs its failure, and the count returned is the
    length of that list. *)
Theorem generateSampleAvatars_contains_failures (w : World)
    (joinPath : string -> string -> string) (portraitNameOf : string -> string)
    (outputDir : string) (portraitFiles : list string) :
  portraitFiles <> [] ->
  exists result log,
    run (generateSampleAvatars w joinPath portraitNameOf outputDir
           portraitFiles) = (inr result, log) /\
    totalAvatars result = length (generatedAvatars result) /\
    attemptsIn log = (12 * length portraitFiles)%nat /\
    (totalAvatars result + failuresIn log = 12 * length portraitFiles)%nat.
Proof.
  intros Hne.
  pose proof (logs_run
    (generateSampleAvatars w joinPath portraitNameOf outputDir portraitFiles)
    (batchProgress (12 * length portraitFiles) (mkBatchResult 0 []))) as Hrun.
  destruct Hrun as (result & Hres & Hlen & Hatt & Hfail).
  - unfold generateSampleAvatars.
    apply logs_bind, logs_when.
    assert (Hbody : logs
      (foldEff portraitFiles
         (fun counters portraitPath =>
            emit (BatchPortrait (portraitNameOf portraitPath)) ;;
            foldEff sampleColors
              (fun counters color =>
                 foldEff sampleSizes
                   (fun counters size =>
                      foldEff sampleVariants
                        (fun counters variant =>
                           attemptAvatar w joinPath outputDir portraitPath
                             (portraitNameOf portraitPath) color size variant
                             counters)
                        counters)
                   counters)
              counters)
         (mkBatchResult 0 []))
      (batchProgress (12 * length portraitFiles) (mkBatchResult 0 []))).
    { apply logs_foldEff_progress. intros counters portraitPath.
      apply logs_bind, logs_emit.
      eapply logs_conseq.
      - apply (logs_foldEff_progress 4). intros c1 color.
        apply (logs_foldEff_progress 2). intros c2 size.
        eapply logs_conseq; [apply (logs_foldEff_progress 1) |].
        + intros c3 variant. apply logs_attemptAvatar.
        + intros res new H. exact H.
      - intros res new (after & -> & H1 & H2 & H3).
        exists after. rewrite attemptsIn_app, failuresIn_app.
        repeat split; [exact H1 | exact H2 | exact H3]. }
    destruct portraitFiles as [| p ps]; [congruence |]. cbn [length Nat.eqb].
    destruct (negb (existsSync w outputDir)).
    + apply logs_emit. apply logs_bind, logs_ret.
      eapply logs_conseq; [exact Hbody |].
      intros res new (after & -> & H1 & H2 & H3). exists after.
      rewrite !attemptsIn_app, !failuresIn_app. repeat split; assumption.
    + apply logs_bind, logs_ret.
      eapply logs_conseq; [exact Hbody |].
      intros res new (after & -> & H1 & H2 & H3). exists after.
      rewrite !attemptsIn_app, !failuresIn_app. repeat split; assumption.
  - destruct (run _) as [res log]. cbn [fst snd] in *. subst res.
    exists result, log. repeat split; auto.
Qed.

Lemma generateSampleAvatars_contains_failures_witness :
  exists result log,
    run (generateSampleAvatars example_small_world (fun dir file => file)
           (fun path => path) "out" ["anna.png"; "ben.jpg"]) = (inr result, log) /\
    totalAvatars result = length (generatedAvatars result) /\
    attemptsIn log = (12 * 2)%nat /\
    (totalAvatars result + failuresIn log = 12 * 2)%nat.
Proof.
  apply (generateSampleAvatars_contains_failures example_small_world
           (fun dir file => file) (fun path => path) "out"
           ["anna.png"; "ben.jpg"]).
  discriminate.
Defined.

(** Without any portrait the generator reports it and exits with code 1. *)
Example generateSampleAvatars_no_portraits :
  run (generateSampleAvatars example_small_world (fun dir file => file)
         (fun path => path) "out" []) =
  (inl (ProcessExit 1), [BatchMkDir "out"; BatchNoPortraits]).
Proof. reflexivity. Qed.

(** *** The events of a call do not depend on the log *)

Section AppendOnly.

Context {E X : Type}.

Lemma appendOnly_ret {A} (a : A) : appendOnly (eff_ret (E := E) (X := X) a).
Proof. intros log. cbn. now rewrite app_nil_r. Qed.

Lemma appendOnly_emit (e : E) : appendOnly (emit (X := X) e).
Proof. intros log. reflexivity. Qed.

Lemma appendOnly_throw {A} (x : X) : appendOnly (throw (E := E) (A := A) x).
Proof. intros log. cbn. now rewrite app_nil_r. Qed.

Lemma appendOnly_bind {A B} (m : Eff E X A) (k : A -> Eff E X B) :
  appendOnly m -> (forall a, appendOnly (k a)) -> appendOnly (eff_bind m k).
Proof.
  intros Hm Hk log. unfold eff_bind. rewrite (Hm log).
  destruct (m []) as [[x | a] new]; cbn [fst snd].
  - reflexivity.
  - rewrite (Hk a (log ++ new)), (Hk a new). cbn [fst snd].
    now rewrite app_assoc.
Qed.

Lemma appendOnly_tryCatch {A} (body : Eff E X A) (handler : X -> Eff E X A) :
  appendOnly body -> (forall x, appendOnly (handler x)) ->
  appendOnly (tryCatch body handler).
Proof.
  intros Hb Hh log. unfold tryCatch. rewrite (Hb log).
  destruct (body []) as [[x | a] new]; cbn [fst snd].
  - rewrite (Hh x (log ++ new)), (Hh x new). cbn [fst snd].
    now rewrite app_assoc.
  - reflexivity.
Qed.

Lemma appendOnly_when (c : bool) (m : Eff E X unit) :
  appendOnly m -> appendOnly (when c m).
Proof. destruct c; [trivial | intros _; apply appendOnly_ret]. Qed.

End AppendOnly.

Ltac appendOnly_step :=
  lazymatch goal with
  | |- appendOnly (eff_bind _ _) => apply appendOnly_bind; [| intros ?]
  | |- appendOnly (eff_ret _) => apply appendOnly_ret
  | |- appendOnly (emit _) => apply appendOnly_emit
  | |- appendOnly (throw _) => apply appendOnly_throw
  | |- appendOnly (tryCatch _ _) => apply appendOnly_tryCatch; [| intros ?]
  | |- appendOnly (when _ _) => apply appendOnly_when
  | |- appendOnly (if ?c then _ else _) => destruct c
  | |- appendOnly (match ?x with _ => _ end) => destruct x
  end; cbv beta iota zeta.

(** The run of [generateAvatar] from the empty log, which an attempt of
    the sample generator uses, tells what the call does from any log. *)
Lemma generateAvatar_appendOnly (w : World)
    (portraitPath colorName : string) (size : Js.Number) (outputPath : string)
    (grayscale withShadow : bool) :
  appendOnly (generateAvatar w portraitPath colorName size outputPath
                             grayscale withShadow).
Proof.
  unfold generateAvatar, addShadowSilhouette. repeat appendOnly_step.
Qed.
